(** * NF-Watch launcher icon generator (generate_icons.py)

    A shallow embedding of the icon generation script and of the parts of
    the imaging and operating-system libraries it calls, followed by the
    properties of the script.

    The script is a straight-line Python module: it opens one source image,
    converts it to RGBA, and for each of five density buckets writes a
    square resize and a round crop of that resize; it then writes one
    larger foreground image and removes a stale XML drawable.

    The Python objects the script manipulates (PIL images) are mutable and
    are passed by reference, so the embedding keeps an object store next to
    the file system.  *)

From stdpp Require Import base option list gmap strings.
From Stdlib Require Import ZArith Lia.

Open Scope Z_scope.

(** ** Raster images *)

(** The PIL modes that occur: greyscale and true colour, each with or
    without an alpha band. *)
Inductive Mode := Mode_L | Mode_LA | Mode_RGB | Mode_RGBA.

Global Instance Mode_eq_dec : EqDecision Mode.
Proof. solve_decision. Defined.

(** A pixel is the list of its band values, in band order. *)
Definition Pixel := list Z.

(** An image object: its mode, its [(width, height)] and its pixels in
    row-major order, as [Image.getdata] lists them. *)
Record Image := mkImage {
  im_mode : Mode;
  im_size : Z * Z;
  im_data : list Pixel
}.

Global Instance Image_eq_dec : EqDecision Image.
Proof. solve_decision. Defined.

Definition width (im : Image) : Z := fst (im_size im).
Definition height (im : Image) : Z := snd (im_size im).

(** Number of colour bands, and the mode obtained by adding an alpha band. *)
Definition color_bands (m : Mode) : nat :=
  match m with
  | Mode_L | Mode_LA => 1%nat
  | Mode_RGB | Mode_RGBA => 3%nat
  end.

Definition bands (m : Mode) : nat :=
  match m with
  | Mode_L => 1%nat
  | Mode_LA => 2%nat
  | Mode_RGB => 3%nat
  | Mode_RGBA => 4%nat
  end.

Definition has_alpha (m : Mode) : bool :=
  match m with
  | Mode_LA | Mode_RGBA => true
  | _ => false
  end.

Definition with_alpha (m : Mode) : Mode :=
  match m with
  | Mode_L | Mode_LA => Mode_LA
  | Mode_RGB | Mode_RGBA => Mode_RGBA
  end.

(** The buffer holds one pixel per position. *)
Definition well_formed (im : Image) : Prop :=
  length (im_data im) = Z.to_nat (width im * height im).

(** [im.getpixel((x, y))]; [None] stands for the [IndexError] outside the
    image. *)
Definition pixel_at (im : Image) (x y : Z) : option Pixel :=
  if bool_decide (0 <= x < width im /\ 0 <= y < height im)
  then im_data im !! Z.to_nat (y * width im + x)
  else None.

(** The alpha value of a pixel of an image with an alpha band, which is
    the last band. *)
Definition alpha_at (im : Image) (x y : Z) : option Z :=
  p ← pixel_at im x y;
  if has_alpha (im_mode im) then last p else None.

(** The colour bands of a pixel. *)
Definition color_at (im : Image) (x y : Z) : option (list Z) :=
  p ← pixel_at im x y; Some (take (color_bands (im_mode im)) p).

(** [Image.new(mode, size, color)]: every band of every pixel is [color]. *)
Definition new_image (m : Mode) (sz : Z * Z) (color : Z) : Image :=
  mkImage m sz (replicate (Z.to_nat (fst sz * snd sz)) (replicate (bands m) color)).

(** [convert("RGBA")] on one pixel: grey is replicated, a missing alpha
    band becomes fully opaque. *)
Definition to_rgba (m : Mode) (p : Pixel) : Pixel :=
  match m with
  | Mode_L => let v := default 0 (p !! 0%nat) in [v; v; v; 255]
  | Mode_LA => let v := default 0 (p !! 0%nat) in [v; v; v; default 255 (p !! 1%nat)]
  | Mode_RGB => take 3 p ++ [255]
  | Mode_RGBA => p
  end.

Definition convert_rgba (im : Image) : Image :=
  mkImage Mode_RGBA (im_size im) (to_rgba (im_mode im) <$> im_data im).

(** A bounding box [(x0, y0, x1, y1)]. *)
Definition Box : Type := Z * Z * Z * Z.

(** [(0, 0) + img.size]: tuple concatenation. *)
Definition box_of_size (sz : Z * Z) : Box := (0, 0, fst sz, snd sz).

(** Writing one alpha value into a pixel: the alpha band is replaced when
    the mode has one and appended otherwise. *)
Definition put_alpha_pixel (m : Mode) (p : Pixel) (q : Pixel) : Pixel :=
  take (color_bands m) p ++ [default 0 (q !! 0%nat)].

(** The image left by [im.putalpha(alpha)] when it does not raise. *)
Definition with_alpha_of (im alpha : Image) : Image :=
  mkImage (with_alpha (im_mode im)) (im_size im)
          (zip_with (put_alpha_pixel (im_mode im)) (im_data im) (im_data alpha)).

(** Mapping over a buffer with the position of each element, counted
    from [k]. *)
Fixpoint imapZ {A B} (f : Z -> A -> B) (k : Z) (l : list A) : list B :=
  match l with
  | [] => []
  | x :: l' => f k x :: imapZ f (k + 1) l'
  end.

Section Imaging.

(** The two numerical primitives of the imaging library are parameters.

    [resample im sz] is the image [im.resize(sz, LANCZOS)] returns: a
    floating-point convolution whose pixel values are not modelled.

    [covers box x y] tells whether the filled ellipse drawn for the
    bounding box [box] paints the pixel [(x, y)]. *)
Variable resample : Image -> Z * Z -> Image.
Variable covers : Box -> Z -> Z -> bool.

(** [ImageDraw.Draw(im).ellipse(box, fill=v)] on a buffer: the painted
    pixels take the fill value, the others keep theirs. *)
Definition draw_ellipse (im : Image) (box : Box) (fill : Z) : Image :=
  mkImage (im_mode im) (im_size im)
    (imapZ (fun k p =>
              if covers box (k mod width im) (k / width im)
              then replicate (bands (im_mode im)) fill
              else p)
           0 (im_data im)).

(** The mask [create_round_crop] builds for an image of size [sz]. *)
Definition round_mask (sz : Z * Z) : Image :=
  draw_ellipse (new_image Mode_L sz 0) (box_of_size sz) 255.

(** The value [create_round_crop] returns for an image holding [im]. *)
Definition round_of (im : Image) : Image :=
  with_alpha_of im (round_mask (im_size im)).

End Imaging.

(** ** The file system *)

(** A path is the list of its components; [os.path.join] adds one. *)
Abbreviation path := (list string).

Definition os_path_join (p : path) (name : string) : path := p ++ [name].

(** [os.path.dirname]: the path without its last component. *)
Definition dirname (p : path) : path := take (pred (length p)) p.

(** The non-empty prefixes of a path, shortest first: the directories
    [os.makedirs] walks through, the path itself last. *)
Definition prefixes (p : path) : list path :=
  (fun k => take k p) <$> seq 1 (length p).

(** What a regular file holds: an encoded raster image, given by the image
    it decodes to, or something that is not an image. *)
Inductive Content :=
  | Raster (im : Image)
  | Other (text : string).

Inductive Node :=
  | Dir
  | File (c : Content).

Global Instance Content_eq_dec : EqDecision Content.
Proof. solve_decision. Defined.

Global Instance Node_eq_dec : EqDecision Node.
Proof. solve_decision. Defined.

Abbreviation FS := (gmap path Node).

(** The exceptions that reach the top level, with the file name Python
    attaches to an [OSError].  [IsADirectoryError] also stands for the
    [PermissionError] Windows raises for a directory.  [ReferenceError]
    is the use of a reference outside the object store; no run of the
    script raises it (see [main_exception_names_a_path]). *)
Inductive Exn :=
  | FileNotFoundError (filename : path)
  | FileExistsError (filename : path)
  | NotADirectoryError (filename : path)
  | IsADirectoryError (filename : path)
  | UnidentifiedImageError (filename : path)
  | ValueError (msg : string)
  | ReferenceError (l : nat).

Definition exn_filename (e : Exn) : option path :=
  match e with
  | FileNotFoundError p | FileExistsError p | NotADirectoryError p
  | IsADirectoryError p | UnidentifiedImageError p => Some p
  | ValueError _ | ReferenceError _ => None
  end.

Definition is_dir (s : FS) (p : path) : bool :=
  match p with
  | [] => true
  | _ => match s !! p with Some Dir => true | _ => false end
  end.

Definition is_file (s : FS) (p : path) : bool :=
  match s !! p with Some (File _) => true | _ => false end.

Definition path_exists (s : FS) (p : path) : bool :=
  match s !! p with Some _ => true | None => false end.

(** Opening and decoding an image file. *)
Definition read_image (p : path) (s : FS) : FS * (Exn + Image) :=
  match s !! p with
  | None => (s, inl (FileNotFoundError p))
  | Some Dir => (s, inl (IsADirectoryError p))
  | Some (File (Other _)) => (s, inl (UnidentifiedImageError p))
  | Some (File (Raster im)) => (s, inr im)
  end.

(** Creating or truncating a file and writing an encoded image to it. *)
Definition write_image (im : Image) (p : path) (s : FS) : FS * (Exn + unit) :=
  if is_dir s (dirname p) then
    match s !! p with
    | Some Dir => (s, inl (IsADirectoryError p))
    | _ => (<[p := File (Raster im)]> s, inr tt)
    end
  else (s, inl (FileNotFoundError p)).

(** The file system in which every path of [l] is a directory. *)
Definition add_dirs (l : list path) (s : FS) : FS :=
  foldr (fun q acc => <[q := Dir]> acc) s l.

(** [os.makedirs(p, exist_ok=True)]: every missing directory on the way
    to [p] is created; a regular file on the way is an error, reported for
    [p] itself or for the first component below the file. *)
Definition makedirs (p : path) (s : FS) : FS * (Exn + unit) :=
  match list_find (fun q => is_file s q = true) (prefixes p) with
  | Some (k, q) =>
      (s, inl (if decide (q = p) then FileExistsError p
               else NotADirectoryError (take (S (S k)) p)))
  | None => (add_dirs (prefixes p) s, inr tt)
  end.

(** [os.remove(p)]. *)
Definition remove (p : path) (s : FS) : FS * (Exn + unit) :=
  match s !! p with
  | None => (s, inl (FileNotFoundError p))
  | Some Dir => (s, inl (IsADirectoryError p))
  | Some (File _) => (delete p s, inr tt)
  end.

(** ** The interpreter state and the monad of the script *)

(** Python objects are referred to by reference: [heap] is the store of
    image objects, indexed by allocation order. *)
Definition loc := nat.

Record World := mkWorld {
  fs : FS;
  heap : list Image;
  stdout : list string
}.

(** A computation transforms the world and either raises or returns; the
    world an exception leaves behind is kept, nothing is rolled back. *)
Definition M (A : Type) : Type := World -> World * (Exn + A).

Global Instance M_ret : MRet M := fun A a w => (w, inr a).

Global Instance M_bind : MBind M := fun A B f m w =>
  match m w with
  | (w', inl e) => (w', inl e)
  | (w', inr a) => f a w'
  end.

Definition raise {A} (e : Exn) : M A := fun w => (w, inl e).

Definition lift_fs {A} (f : FS -> FS * (Exn + A)) : M A := fun w =>
  let '(s, r) := f (fs w) in (mkWorld s (heap w) (stdout w), r).

Definition alloc (im : Image) : M loc := fun w =>
  (mkWorld (fs w) (heap w ++ [im]) (stdout w), inr (length (heap w))).

Definition deref (l : loc) : M Image := fun w =>
  match heap w !! l with
  | Some im => (w, inr im)
  | None => (w, inl (ReferenceError l))
  end.

Definition assign (l : loc) (im : Image) : M unit := fun w =>
  (mkWorld (fs w) (<[l := im]> (heap w)) (stdout w), inr tt).

Fixpoint for_each {A} (l : list A) (body : A -> M unit) : M unit :=
  match l with
  | [] => mret tt
  | x :: l' => body x;; for_each l' body
  end.

(** An [if] statement without [else]. *)
Definition when (cond : bool) (body : M unit) : M unit :=
  if cond then body else mret tt.

(** ** The library calls of the script *)

Definition os_makedirs (p : path) : M unit := lift_fs (makedirs p).

Definition os_path_exists (p : path) : M bool := fun w =>
  (w, inr (path_exists (fs w) p)).

Definition os_remove (p : path) : M unit := lift_fs (remove p).

Definition print (line : string) : M unit := fun w =>
  (mkWorld (fs w) (heap w) (stdout w ++ [line]), inr tt).

Definition Image_open (p : path) : M loc :=
  im ← lift_fs (read_image p); alloc im.

Definition Image_convert_RGBA (l : loc) : M loc :=
  im ← deref l; alloc (convert_rgba im).

Definition Image_size (l : loc) : M (Z * Z) :=
  im ← deref l; mret (im_size im).

Definition Image_new (m : Mode) (sz : Z * Z) (color : Z) : M loc :=
  alloc (new_image m sz color).

Definition Image_copy (l : loc) : M loc :=
  im ← deref l; alloc im.

(** [im.putalpha(alpha)] changes [im] in place.  The alpha source must be
    a single-band image of the same size. *)
Definition Image_putalpha (l a : loc) : M unit :=
  im ← deref l;
  al ← deref a;
  if decide (im_mode al = Mode_L) then
    if decide (im_size al = im_size im) then assign l (with_alpha_of im al)
    else raise (ValueError "images do not match")
  else raise (ValueError "illegal image mode").

Definition Image_save (l : loc) (p : path) : M unit :=
  im ← deref l; lift_fs (write_image im p).

(** [ImageDraw.Draw(im)] is a handle on [im] itself: drawing through it
    changes the image it was made for. *)
Definition ImageDraw_Draw (l : loc) : M loc := mret l.

Section Script.

Variable resample : Image -> Z * Z -> Image.
Variable covers : Box -> Z -> Z -> bool.

Definition Image_resize (l : loc) (sz : Z * Z) : M loc :=
  im ← deref l; alloc (resample im sz).

Definition Draw_ellipse (draw : loc) (box : Box) (fill : Z) : M unit :=
  im ← deref draw; assign draw (draw_ellipse covers im box fill).

(** ** The script *)

Definition source_image_path : path :=
  ["C:"; "Users"; "Pawan Kumar"; ".gemini"; "antigravity"; "brain";
   "816f88ac-6aa7-464f-a110-b0a83f6434bd";
   "premium_watch_icon_1771658973289.png"]%string.

Definition res_dir : path :=
  ["d:"; "My project"; "my app"; "NF watch"; "app"; "src"; "main"; "res"]%string.

(** The dictionary [sizes], in insertion order, which is the order
    [sizes.items()] yields. *)
Definition sizes : list (string * Z) :=
  [("mdpi", 48); ("hdpi", 72); ("xhdpi", 96); ("xxhdpi", 144);
   ("xxxhdpi", 192)]%string.

Definition create_round_crop (img : loc) : M loc :=
  sz ← Image_size img;
  mask ← Image_new Mode_L sz 0;
  draw ← ImageDraw_Draw mask;
  sz' ← Image_size img;
  Draw_ellipse draw (box_of_size sz') 255;;
  result ← Image_copy img;
  Image_putalpha result mask;;
  mret result.

(** The body of the loop over the buckets. *)
Definition mipmap (img : loc) (bucket : string * Z) : M unit :=
  let '(density, size) := bucket in
  let mipmap_dir := os_path_join res_dir ("mipmap-" +:+ density) in
  os_makedirs mipmap_dir;;
  resized ← Image_resize img (size, size);
  Image_save resized (os_path_join mipmap_dir "ic_launcher.png");;
  round_img ← create_round_crop resized;
  Image_save round_img (os_path_join mipmap_dir "ic_launcher_round.png").

(** The module body, for a given iteration order of the buckets. *)
Definition generate_icons (table : list (string * Z)) : M unit :=
  opened ← Image_open source_image_path;
  img ← Image_convert_RGBA opened;
  for_each table (mipmap img);;
  let fg_dir := os_path_join res_dir "drawable" in
  os_makedirs fg_dir;;
  let fg_size := 432 in
  fg_img ← Image_resize img (fg_size, fg_size);
  Image_save fg_img (os_path_join fg_dir "ic_launcher_foreground.png");;
  let xml_path := os_path_join fg_dir "ic_launcher_foreground.xml" in
  found ← os_path_exists xml_path;
  when found (os_remove xml_path);;
  print "Icons generated successfully!".

Definition main : M unit := generate_icons sizes.

End Script.

(** ** Two executable instances of the numerical primitives

    They make the script runnable on concrete worlds.  [nearest_resample]
    samples the nearest source pixel; [lattice_covers] paints the pixels
    whose coordinates satisfy the equation of the ellipse inscribed in the
    bounding box, both ends of the box included. *)

Definition nearest_resample (im : Image) (sz : Z * Z) : Image :=
  let '(w, h) := sz in
  mkImage (im_mode im) sz
    (imapZ (fun k _ =>
              let x := k mod w in
              let y := k / w in
              default (replicate (bands (im_mode im)) 0)
                (im_data im !! Z.to_nat ((y * height im / h) * width im + x * width im / w)))
           0 (replicate (Z.to_nat (w * h)) tt)).

Definition lattice_covers (box : Box) (x y : Z) : bool :=
  let '(x0, y0, x1, y1) := box in
  let a := x1 - x0 in
  let b := y1 - y0 in
  bool_decide (x0 <= x <= x1 /\ y0 <= y <= y1 /\
               (2 * x - x0 - x1) ^ 2 * b ^ 2 + (2 * y - y0 - y1) ^ 2 * a ^ 2
               <= a ^ 2 * b ^ 2).


(** ** The file-system effects of a run, as a list of actions

    The calls of the script that touch the file system, after the source
    image has been opened, are directory creations, image writes and one
    conditional removal.  The list of these calls, with the images
    written, is the trace the proofs about the file system work on. *)

Inductive Act :=
  | AMakedirs (p : path)
  | ASave (im : Image) (p : path)
  | ARemoveIfExists (p : path).

Definition act (a : Act) (s : FS) : FS * (Exn + unit) :=
  match a with
  | AMakedirs p => makedirs p s
  | ASave im p => write_image im p s
  | ARemoveIfExists p => if path_exists s p then remove p s else (s, inr tt)
  end.

(** Actions in sequence, stopping at the first exception. *)
Fixpoint run_acts (l : list Act) (s : FS) : FS * (Exn + unit) :=
  match l with
  | [] => (s, inr tt)
  | a :: l' =>
      match act a s with
      | (s', inr _) => run_acts l' s'
      | (s', inl e) => (s', inl e)
      end
  end.

(** The final file system of a run of actions that raised nothing. *)
Definition ok_run (l : list Act) (s : FS) : option FS :=
  match run_acts l s with
  | (s', inr _) => Some s'
  | (_, inl _) => None
  end.

(** What an action that returned has established; in a file system where
    this holds the action changes nothing. *)
Definition holds (a : Act) (s : FS) : Prop :=
  match a with
  | AMakedirs p => Forall (fun q => s !! q = Some Dir) (prefixes p)
  | ASave im p => is_dir s (dirname p) = true /\ s !! p = Some (File (Raster im))
  | ARemoveIfExists p => s !! p = None
  end.

(** The paths an action may report in an exception. *)
Definition footprint (a : Act) : list path :=
  match a with
  | AMakedirs p => prefixes p
  | ASave _ p | ARemoveIfExists p => [p]
  end.

(** The file an action writes or removes. *)
Definition target (a : Act) : option path :=
  match a with
  | AMakedirs _ => None
  | ASave _ p | ARemoveIfExists p => Some p
  end.

(** [compatb a b]: running [b] after [a] keeps what [a] established. *)
Definition compatb (a b : Act) : bool :=
  match a, b with
  | ASave _ p, ASave _ q | ASave _ p, ARemoveIfExists q
  | ARemoveIfExists p, ASave _ q => bool_decide (p <> q)
  | ARemoveIfExists p, AMakedirs q => bool_decide (p ∉ prefixes q)
  | _, _ => true
  end.

Fixpoint ordered_compat (l : list Act) : bool :=
  match l with
  | [] => true
  | a :: l' => forallb (compatb a) l' && ordered_compat l'
  end.

(** [indepb a b]: [a] and [b] touch unrelated paths, so that they can be
    exchanged. *)
Definition indepb (a b : Act) : bool :=
  match a, b with
  | AMakedirs _, AMakedirs _ => true
  | AMakedirs p, ASave _ q | ASave _ q, AMakedirs p =>
      bool_decide ((q ∉ prefixes p) /\ (dirname q ∉ prefixes p))
  | ASave _ p, ASave _ q =>
      bool_decide (p <> q /\ p <> dirname q /\ q <> dirname p)
  | _, _ => false
  end.

(** The paths of the script. *)
Definition mipmap_dir (density : string) : path :=
  os_path_join res_dir ("mipmap-" +:+ density).

Definition launcher_path (density : string) : path :=
  os_path_join (mipmap_dir density) "ic_launcher.png".

Definition round_path (density : string) : path :=
  os_path_join (mipmap_dir density) "ic_launcher_round.png".

Definition fg_dir : path := os_path_join res_dir "drawable".

Definition fg_path : path := os_path_join fg_dir "ic_launcher_foreground.png".

Definition xml_path : path := os_path_join fg_dir "ic_launcher_foreground.xml".

Section Trace.

Variable resample : Image -> Z * Z -> Image.
Variable covers : Box -> Z -> Z -> bool.

(** The actions of one iteration of the loop, for the decoded source
    [img]. *)
Definition bucket_acts (img : Image) (bucket : string * Z) : list Act :=
  let resized := resample img (snd bucket, snd bucket) in
  [AMakedirs (mipmap_dir (fst bucket));
   ASave resized (launcher_path (fst bucket));
   ASave (round_of covers resized) (round_path (fst bucket))].

(** The actions after the loop, up to the last image write. *)
Definition foreground_acts (img : Image) : list Act :=
  [AMakedirs fg_dir; ASave (resample img (432, 432)) fg_path].

(** All image writes of a run. *)
Definition write_acts (table : list (string * Z)) (img : Image) : list Act :=
  concat (bucket_acts img <$> table) ++ foreground_acts img.

Definition script (table : list (string * Z)) (img : Image) : list Act :=
  write_acts table img ++ [ARemoveIfExists xml_path].

(** The run on the file system alone: its final state and its outcome. *)
Definition generate_fs (table : list (string * Z)) (s : FS) : FS * (Exn + unit) :=
  match read_image source_image_path s with
  | (_, inl e) => (s, inl e)
  | (_, inr im) => run_acts (script table (convert_rgba im)) s
  end.

End Trace.

(** ** The geometry of the ellipse primitive *)


(** ** Example data *)

(** A 2x2 source image with opaque, translucent and transparent pixels. *)
Definition sample : Image :=
  mkImage Mode_RGBA (2, 2)
    [[10; 20; 30; 255]; [40; 50; 60; 128]; [70; 80; 90; 0]; [1; 2; 3; 255]].


(** A file system with the source image and the resource directory. *)
Definition base_fs : FS :=
  <[source_image_path := File (Raster sample)]>
    (add_dirs (prefixes (dirname source_image_path)) (add_dirs (prefixes res_dir) ∅)).

(** The same with a stale XML drawable in place. *)
Definition stale_fs : FS :=
  <[xml_path := File (Other "<vector/>")]> (add_dirs (prefixes fg_dir) base_fs).

(** The same with a directory where the XML drawable would be. *)
Definition xml_dir_fs : FS :=
  <[xml_path := Dir]> (add_dirs (prefixes fg_dir) base_fs).

(** The same with a regular file where the hdpi directory should go. *)
Definition blocked_fs : FS :=
  <[mipmap_dir "hdpi" := File (Other "")]> base_fs.

(** A file system without the source image. *)
Definition empty_fs : FS := add_dirs (prefixes res_dir) ∅.

(** A fresh interpreter on a file system. *)
Definition boot (s : FS) : World := mkWorld s [] [].

(** The buckets with the first two exchanged. *)
Definition swapped_sizes : list (string * Z) :=
  [("hdpi", 72); ("mdpi", 48); ("xhdpi", 96); ("xxhdpi", 144);
   ("xxxhdpi", 192)]%string.

(** ** The paths a run may touch *)

(** The six directories the script asks for. *)
Definition output_dirs : list path :=
  (mipmap_dir ∘ fst <$> sizes) ++ [fg_dir].

(** The eleven images it writes. *)
Definition output_paths : list path :=
  concat ((fun bucket => [launcher_path (fst bucket); round_path (fst bucket)])
            <$> sizes) ++ [fg_path].

(** The directories on the way to the six directories, these included. *)
Definition output_dir_prefixes : list path :=
  concat (prefixes <$> output_dirs).

(** ** When a run of actions goes through *)




(** ** Complete pixels *)

(** Every pixel of the buffer has the bands of the mode. *)
Definition full_pixels (im : Image) : Prop :=
  Forall (fun p => length p = bands (im_mode im)) (im_data im).
(** * Properties of the imaging operations *)

Lemma lookup_imapZ {A B} (f : Z -> A -> B) (l : list A) (k : Z) (i : nat) :
  imapZ f k l !! i = f (k + Z.of_nat i) <$> l !! i.
Proof.
  revert k i. induction l as [|x l IH]; intros k [|i]; simpl; try done.
  - by rewrite Z.add_0_r.
  - rewrite IH. do 2 f_equal. lia.
Qed.

Lemma length_imapZ {A B} (f : Z -> A -> B) (l : list A) (k : Z) :
  length (imapZ f k l) = length l.
Proof. revert k. induction l as [|x l IH]; intros k; simpl; [done|]. by rewrite IH. Qed.

Section ImagingFacts.

Variable covers : Box -> Z -> Z -> bool.

Lemma round_of_size im : im_size (round_of covers im) = im_size im.
Proof. reflexivity. Qed.

Lemma round_of_mode im : im_mode (round_of covers im) = with_alpha (im_mode im).
Proof. reflexivity. Qed.

Lemma round_mask_size sz : im_size (round_mask covers sz) = sz.
Proof. reflexivity. Qed.

Lemma round_mask_mode sz : im_mode (round_mask covers sz) = Mode_L.
Proof. reflexivity. Qed.

(** Row-major addressing: the position of pixel [(x, y)] and back. *)
Lemma index_coords (w h x y : Z) :
  0 <= x < w -> 0 <= y < h ->
  let k := Z.to_nat (y * w + x) in
  (k < Z.to_nat (w * h))%nat /\ Z.of_nat k mod w = x /\ Z.of_nat k / w = y.
Proof.
  intros Hx Hy k. subst k.
  assert (0 <= y * w + x < w * h) by nia.
  rewrite Z2Nat.id by lia. split; [lia|]. split.
  - rewrite Z.add_comm, Z_mod_plus_full. apply Z.mod_small; lia.
  - rewrite Z.div_add_l by lia. rewrite Z.div_small by lia. lia.
Qed.

(** The mask is 255 on the painted pixels and 0 elsewhere. *)
Lemma round_mask_pixel sz x y :
  0 <= x < fst sz -> 0 <= y < snd sz ->
  im_data (round_mask covers sz) !! Z.to_nat (y * fst sz + x)
  = Some [if covers (box_of_size sz) x y then 255 else 0].
Proof.
  intros Hx Hy.
  destruct (index_coords (fst sz) (snd sz) x y Hx Hy) as (Hk & Hm & Hd).
  unfold round_mask, draw_ellipse, new_image; simpl.
  rewrite lookup_imapZ, lookup_replicate_2 by done.
  cbn [fmap option_fmap option_map width im_size im_mode fst bands].
  rewrite Z.add_0_l. unfold width. cbn [im_size]. rewrite Hm, Hd.
  by destruct (covers _ _ _).
Qed.

(** A pixel of the round crop: the colour bands of the source pixel,
    followed by the mask value. *)
Lemma round_of_pixel im x y p :
  pixel_at im x y = Some p ->
  pixel_at (round_of covers im) x y
  = Some (take (color_bands (im_mode im)) p
          ++ [if covers (box_of_size (im_size im)) x y then 255 else 0]).
Proof.
  unfold pixel_at, width, height. rewrite round_of_size.
  case_bool_decide as Hin; [|done]. intros Hp.
  destruct Hin as [Hx Hy].
  unfold round_of, with_alpha_of; simpl.
  rewrite lookup_zip_with, Hp; simpl.
  by rewrite round_mask_pixel.
Qed.

Lemma round_of_alpha im x y p :
  pixel_at im x y = Some p ->
  alpha_at (round_of covers im) x y
  = Some (if covers (box_of_size (im_size im)) x y then 255 else 0).
Proof.
  intros Hp. unfold alpha_at. rewrite (round_of_pixel _ _ _ _ Hp).
  rewrite round_of_mode. simpl.
  rewrite last_snoc. by destruct (im_mode im).
Qed.

(** The colour bands are those of the source, for a pixel that has
    them all. *)
Lemma round_of_color im x y p :
  pixel_at im x y = Some p ->
  (color_bands (im_mode im) <= length p)%nat ->
  color_at (round_of covers im) x y = color_at im x y.
Proof.
  intros Hp Hle. unfold color_at. rewrite (round_of_pixel _ _ _ _ Hp), Hp.
  rewrite round_of_mode. simpl. f_equal.
  assert (Hcb : color_bands (with_alpha (im_mode im)) = color_bands (im_mode im))
    by by destruct (im_mode im).
  rewrite Hcb.
  rewrite take_app_le by (rewrite length_take; lia).
  by rewrite take_take, Nat.min_id.
Qed.

End ImagingFacts.

(** * The object store *)

Lemma bind_inr {A B} (m : M A) (f : A -> M B) w w' a :
  m w = (w', inr a) -> (m ≫= f) w = f a w'.
Proof. unfold mbind, M_bind. by intros ->. Qed.

Lemma bind_inl {A B} (m : M A) (f : A -> M B) w w' e :
  m w = (w', inl e) -> (m ≫= f) w = (w', inl e).
Proof. unfold mbind, M_bind. by intros ->. Qed.

Lemma deref_ok s h o l im :
  h !! l = Some im -> deref l (mkWorld s h o) = (mkWorld s h o, inr im).
Proof. unfold deref. simpl. by intros ->. Qed.

Lemma deref_dangling s h o l :
  h !! l = None -> deref l (mkWorld s h o) = (mkWorld s h o, inl (ReferenceError l)).
Proof. unfold deref. simpl. by intros ->. Qed.

Lemma Image_size_ok s h o l im :
  h !! l = Some im -> Image_size l (mkWorld s h o) = (mkWorld s h o, inr (im_size im)).
Proof.
  intros H. unfold Image_size. by rewrite (bind_inr _ _ _ _ _ (deref_ok s _ o _ _ H)).
Qed.

Lemma Image_new_ok s h o m sz c :
  Image_new m sz c (mkWorld s h o)
  = (mkWorld s (h ++ [new_image m sz c]) o, inr (length h)).
Proof. reflexivity. Qed.

Lemma Image_copy_ok s h o l im :
  h !! l = Some im ->
  Image_copy l (mkWorld s h o) = (mkWorld s (h ++ [im]) o, inr (length h)).
Proof.
  intros H. unfold Image_copy. by rewrite (bind_inr _ _ _ _ _ (deref_ok s _ o _ _ H)).
Qed.

Lemma Image_putalpha_ok s h o l a im al :
  h !! l = Some im -> h !! a = Some al ->
  im_mode al = Mode_L -> im_size al = im_size im ->
  Image_putalpha l a (mkWorld s h o)
  = (mkWorld s (<[l := with_alpha_of im al]> h) o, inr tt).
Proof.
  intros Hl Ha Hm Hs. unfold Image_putalpha.
  rewrite (bind_inr _ _ _ _ _ (deref_ok s _ o _ _ Hl)).
  rewrite (bind_inr _ _ _ _ _ (deref_ok s _ o _ _ Ha)).
  by rewrite !decide_True.
Qed.

Lemma Image_save_inr s h o l im p s' :
  h !! l = Some im -> write_image im p s = (s', inr tt) ->
  Image_save l p (mkWorld s h o) = (mkWorld s' h o, inr tt).
Proof.
  intros H Hw. unfold Image_save.
  rewrite (bind_inr _ _ _ _ _ (deref_ok s _ o _ _ H)).
  unfold lift_fs. simpl. by rewrite Hw.
Qed.

Lemma Image_save_inl s h o l im p s' e :
  h !! l = Some im -> write_image im p s = (s', inl e) ->
  Image_save l p (mkWorld s h o) = (mkWorld s' h o, inl e).
Proof.
  intros H Hw. unfold Image_save.
  rewrite (bind_inr _ _ _ _ _ (deref_ok s _ o _ _ H)).
  unfold lift_fs. simpl. by rewrite Hw.
Qed.

Lemma read_image_inr p s s' im :
  read_image p s = (s', inr im) -> s' = s /\ s !! p = Some (File (Raster im)).
Proof.
  unfold read_image. destruct (s !! p) as [[|[im0|text]]|]; try done.
  by intros [= <- <-].
Qed.

Lemma read_image_inl p s s' e :
  read_image p s = (s', inl e) ->
  s' = s /\ (forall im, s !! p <> Some (File (Raster im))) /\ exn_filename e = Some p.
Proof.
  unfold read_image. destruct (s !! p) as [[|[im0|text]]|]; try done;
    by intros [= <- <-].
Qed.

Lemma Image_open_inr s h o p s' im :
  read_image p s = (s', inr im) ->
  Image_open p (mkWorld s h o) = (mkWorld s (h ++ [im]) o, inr (length h)).
Proof.
  intros Hr. destruct (read_image_inr _ _ _ _ Hr) as [-> _].
  unfold Image_open.
  by erewrite bind_inr by (unfold lift_fs; cbn [fs]; by rewrite Hr).
Qed.

Lemma Image_open_inl s h o p s' e :
  read_image p s = (s', inl e) ->
  Image_open p (mkWorld s h o) = (mkWorld s h o, inl e).
Proof.
  intros Hr. destruct (read_image_inl _ _ _ _ Hr) as [-> _].
  unfold Image_open.
  by erewrite bind_inl by (unfold lift_fs; cbn [fs]; by rewrite Hr).
Qed.

Lemma Image_convert_RGBA_ok s h o l im :
  h !! l = Some im ->
  Image_convert_RGBA l (mkWorld s h o)
  = (mkWorld s (h ++ [convert_rgba im]) o, inr (length h)).
Proof.
  intros H. unfold Image_convert_RGBA.
  by rewrite (bind_inr _ _ _ _ _ (deref_ok s _ o _ _ H)).
Qed.

Lemma os_makedirs_inr s h o p s' :
  makedirs p s = (s', inr tt) ->
  os_makedirs p (mkWorld s h o) = (mkWorld s' h o, inr tt).
Proof. unfold os_makedirs, lift_fs. simpl. by intros ->. Qed.

Lemma os_makedirs_inl s h o p s' e :
  makedirs p s = (s', inl e) ->
  os_makedirs p (mkWorld s h o) = (mkWorld s' h o, inl e).
Proof. unfold os_makedirs, lift_fs. simpl. by intros ->. Qed.

Section StoreFacts.

Variable resample : Image -> Z * Z -> Image.
Variable covers : Box -> Z -> Z -> bool.

Lemma Image_resize_ok s h o l im sz :
  h !! l = Some im ->
  Image_resize resample l sz (mkWorld s h o)
  = (mkWorld s (h ++ [resample im sz]) o, inr (length h)).
Proof.
  intros H. unfold Image_resize.
  by rewrite (bind_inr _ _ _ _ _ (deref_ok s _ o _ _ H)).
Qed.

Lemma Image_resize_dangling s h o l sz :
  h !! l = None ->
  Image_resize resample l sz (mkWorld s h o)
  = (mkWorld s h o, inl (ReferenceError l)).
Proof.
  intros H. unfold Image_resize.
  by rewrite (bind_inl _ _ _ _ _ (deref_dangling s _ o _ H)).
Qed.

Lemma Draw_ellipse_ok s h o d im box fill :
  h !! d = Some im ->
  Draw_ellipse covers d box fill (mkWorld s h o)
  = (mkWorld s (<[d := draw_ellipse covers im box fill]> h) o, inr tt).
Proof.
  intros H. unfold Draw_ellipse.
  by rewrite (bind_inr _ _ _ _ _ (deref_ok s _ o _ _ H)).
Qed.

(** [create_round_crop] allocates the mask and the copy, draws on the
    mask and writes the alpha band of the copy; it returns the copy. *)
Lemma create_round_crop_spec s h o img im :
  h !! img = Some im ->
  create_round_crop covers img (mkWorld s h o)
  = (mkWorld s (h ++ [round_mask covers (im_size im); round_of covers im]) o,
     inr (S (length h))).
Proof.
  intros H. unfold create_round_crop.
  rewrite (bind_inr _ _ _ _ _ (Image_size_ok s _ o _ _ H)).
  rewrite (bind_inr _ _ _ _ _ (Image_new_ok _ _ _ _ _ _)).
  erewrite bind_inr by reflexivity.
  erewrite bind_inr by (apply Image_size_ok; by apply lookup_app_l_Some).
  erewrite bind_inr by (apply Draw_ellipse_ok; by apply list_lookup_middle).
  rewrite insert_app_r_alt, Nat.sub_diag by done. simpl insert.
  erewrite bind_inr by (apply Image_copy_ok; by apply lookup_app_l_Some).
  erewrite bind_inr.
  2:{ eapply Image_putalpha_ok.
      - by apply list_lookup_middle.
      - apply lookup_app_l_Some. by apply list_lookup_middle.
      - done.
      - done. }
  unfold mret, M_ret.
  rewrite insert_app_r_alt, Nat.sub_diag by done. simpl insert.
  rewrite <- app_assoc, length_app. simpl.
  by rewrite Nat.add_1_r.
Qed.

Lemma create_round_crop_dangling s h o img :
  h !! img = None ->
  create_round_crop covers img (mkWorld s h o)
  = (mkWorld s h o, inl (ReferenceError img)).
Proof.
  intros H. unfold create_round_crop, Image_size.
  by rewrite (bind_inl _ _ _ _ _ (bind_inl _ _ _ _ _ (deref_dangling s _ o _ H))).
Qed.

End StoreFacts.

(** * The file system *)

Lemma lookup_add_dirs (l : list path) (s : FS) (q : path) :
  add_dirs l s !! q = if decide (q ∈ l) then Some Dir else s !! q.
Proof.
  induction l as [|x l IH]; [done|].
  change (add_dirs (x :: l) s) with (<[x := Dir]> (add_dirs l s)).
  rewrite lookup_insert, IH.
  destruct (decide (q ∈ x :: l)) as [Hc|Hc], (decide (x = q)) as [->|Hne],
    (decide (q ∈ l)) as [Hl|Hl]; try done; exfalso;
    first [ by apply Hc; constructor
          | by apply elem_of_cons in Hc as [?|?] ].
Qed.

Lemma elem_of_prefixes (q p : path) :
  q ∈ prefixes p <-> exists k, (1 <= k <= length p)%nat /\ q = take k p.
Proof.
  unfold prefixes. rewrite list_elem_of_fmap. split.
  - intros (k & -> & Hk). apply elem_of_seq in Hk. exists k. split; [lia|done].
  - intros (k & Hk & ->). exists k. split; [done|]. apply elem_of_seq. lia.
Qed.

Lemma prefixes_self (p : path) : p <> [] -> p ∈ prefixes p.
Proof.
  intros Hp. apply elem_of_prefixes. exists (length p). split.
  - destruct p; [done|simpl; lia].
  - by rewrite firstn_all.
Qed.

Lemma dirname_ne (p : path) : p <> [] -> dirname p <> p.
Proof.
  intros Hp Heq. apply (f_equal length) in Heq. unfold dirname in Heq.
  rewrite length_take in Heq. destruct p; [done|simpl in Heq; lia].
Qed.

Lemma is_dir_lookup (s s' : FS) (p : path) :
  (forall q, s !! q = Some Dir -> s' !! q = Some Dir) ->
  is_dir s p = true -> is_dir s' p = true.
Proof.
  intros Hs. unfold is_dir. destruct p as [|c p]; [done|].
  destruct (s !! (c :: p)) as [[|]|] eqn:Hq; try done.
  by rewrite (Hs _ Hq).
Qed.

Lemma makedirs_inr p s s' :
  makedirs p s = (s', inr tt) ->
  Forall (fun q => is_file s q = false) (prefixes p) /\ s' = add_dirs (prefixes p) s.
Proof.
  unfold makedirs. destruct (list_find _ _) as [[k q]|] eqn:Hf; [done|].
  intros [= <-]. split; [|done].
  apply list_find_None in Hf. eapply Forall_impl; [exact Hf|].
  simpl. intros q Hq. by destruct (is_file s q).
Qed.

Lemma makedirs_inl p s s' e :
  makedirs p s = (s', inl e) ->
  s' = s /\ exists q, exn_filename e = Some q /\ q ∈ prefixes p.
Proof.
  unfold makedirs. destruct (list_find _ _) as [[k q]|] eqn:Hf; [|done].
  intros [= <- <-]. split; [done|].
  apply list_find_Some in Hf as (Hk & _ & _).
  assert (Hq : q ∈ prefixes p) by (eapply list_elem_of_lookup_2; eauto).
  unfold prefixes in Hk. rewrite list_lookup_fmap in Hk.
  destruct (seq 1 (length p) !! k) as [j|] eqn:Hj; [|done].
  apply lookup_seq in Hj as [-> Hlt]. simpl in Hk. injection Hk as Hk.
  destruct (decide (q = p)) as [->|Hne]; simpl.
  - by eexists.
  - eexists; split; [done|]. apply elem_of_prefixes. exists (S (S k)).
    split; [|done]. split; [lia|].
    destruct (decide (S (S k) <= length p)%nat); [done|].
    exfalso. apply Hne. subst q. apply take_ge. lia.
Qed.

Lemma makedirs_noop (p : path) (s : FS) :
  Forall (fun q => s !! q = Some Dir) (prefixes p) -> makedirs p s = (s, inr tt).
Proof.
  intros Hd. unfold makedirs.
  destruct (list_find _ _) as [[k q]|] eqn:Hf.
  - apply list_find_Some in Hf as (Hk & Hfile & _).
    apply list_elem_of_lookup_2 in Hk.
    rewrite Forall_forall in Hd. unfold is_file in Hfile.
    by rewrite (Hd _ Hk) in Hfile.
  - f_equal. apply map_eq. intros q. rewrite lookup_add_dirs.
    case_decide as Hq; [|done].
    rewrite Forall_forall in Hd. by rewrite (Hd _ Hq).
Qed.

(** ** One action *)

(** An action that raises leaves the file system as it was. *)
Lemma act_fail_frame a s s' e : act a s = (s', inl e) -> s' = s.
Proof.
  destruct a as [p|im p|p]; simpl.
  - by intros [? _]%makedirs_inl.
  - unfold write_image. destruct (is_dir _ _); [|by intros [= <-]].
    destruct (s !! p) as [[|]|]; by intros [= <-].
  - destruct (path_exists s p); [|done]. unfold remove.
    destruct (s !! p) as [[|]|]; by intros [= <-].
Qed.

(** The exception of an action names a path of its footprint. *)
Lemma act_err_footprint a s s' e :
  act a s = (s', inl e) -> exists q, exn_filename e = Some q /\ q ∈ footprint a.
Proof.
  destruct a as [p|im p|p]; simpl.
  - by intros [_ ?]%makedirs_inl.
  - unfold write_image. intros Hw. exists p. split; [|apply list_elem_of_here].
    destruct (is_dir _ _); [destruct (s !! p) as [[|]|]|]; by simplify_eq.
  - unfold remove. intros Hr. exists p. split; [|apply list_elem_of_here].
    destruct (path_exists s p); [destruct (s !! p) as [[|]|]|]; by simplify_eq.
Qed.

(** No action removes or replaces a directory. *)
Lemma act_dir_preserved (a : Act) (s s' : FS) r (q : path) :
  act a s = (s', r) -> s !! q = Some Dir -> s' !! q = Some Dir.
Proof.
  destruct r as [e|[]]; [by intros ->%act_fail_frame|].
  destruct a as [p|im p|p]; simpl.
  - intros [_ ->]%makedirs_inr Hq. rewrite lookup_add_dirs. by case_decide.
  - unfold write_image. destruct (is_dir _ _); [|done].
    destruct (s !! p) as [[|]|] eqn:Hp; [done| |]; intros [= <-] Hq;
      rewrite lookup_insert_ne; congruence.
  - destruct (path_exists s p); [|by intros [= <-]]. unfold remove.
    destruct (s !! p) as [[|]|] eqn:Hp; [done| |done]; intros [= <-] Hq.
    rewrite lookup_delete_ne; congruence.
Qed.

(** A regular file stays as it is unless it is the target of the action. *)
Lemma act_file_preserved (a : Act) (s s' : FS) r (q : path) c :
  act a s = (s', r) -> target a <> Some q ->
  s !! q = Some (File c) -> s' !! q = Some (File c).
Proof.
  destruct r as [e|[]]; [by intros ->%act_fail_frame|].
  destruct a as [p|im p|p]; simpl.
  - intros [Hnf ->]%makedirs_inr _ Hq. rewrite lookup_add_dirs.
    case_decide as Hin; [|done].
    rewrite Forall_forall in Hnf. specialize (Hnf _ Hin).
    unfold is_file in Hnf. by rewrite Hq in Hnf.
  - unfold write_image. destruct (is_dir _ _); [|done].
    destruct (s !! p) as [[|]|] eqn:Hp; [done| |]; intros [= <-] Hne Hq;
      rewrite lookup_insert_ne; congruence.
  - destruct (path_exists s p); [|by intros [= <-]]. unfold remove.
    destruct (s !! p) as [[|]|] eqn:Hp; [done| |done]; intros [= <-] Hne Hq.
    rewrite lookup_delete_ne; congruence.
Qed.

(** An action creates nothing outside the paths it is compatible with. *)
Lemma act_none_preserved (a : Act) (s s' : FS) r (q : path) :
  act a s = (s', r) -> compatb (ARemoveIfExists q) a = true ->
  s !! q = None -> s' !! q = None.
Proof.
  destruct r as [e|[]]; [by intros ->%act_fail_frame|].
  destruct a as [p|im p|p]; simpl.
  - intros [_ ->]%makedirs_inr Hc%bool_decide_eq_true Hq.
    rewrite lookup_add_dirs. by rewrite decide_False.
  - unfold write_image. destruct (is_dir _ _); [|done].
    intros Hw Hc%bool_decide_eq_true Hq.
    destruct (s !! p) as [[|]|] eqn:Hp; [done| |]; injection Hw as <-;
      rewrite lookup_insert_ne; congruence.
  - destruct (path_exists s p); [|by intros [= <-]]. unfold remove.
    destruct (s !! p) as [[|]|] eqn:Hp; [done| |done]; intros [= <-] _ Hq.
    destruct (decide (p = q)) as [->|Hne].
    + apply lookup_delete_eq.
    + by rewrite lookup_delete_ne.
Qed.

(** An action that returned has established its postcondition. *)
Lemma act_establish a s s' : act a s = (s', inr tt) -> holds a s'.
Proof.
  destruct a as [p|im p|p]; simpl.
  - intros [_ ->]%makedirs_inr. apply Forall_forall. intros q Hq.
    rewrite lookup_add_dirs. by rewrite decide_True.
  - unfold write_image. destruct (is_dir s (dirname p)) eqn:Hd; [|done].
    intros Hw.
    assert (s' = <[p := File (Raster im)]> s) as ->
      by (destruct (s !! p) as [[|]|]; congruence).
    assert (s !! p <> Some Dir) as Hp by (destruct (s !! p) as [[|]|]; congruence).
    split; [|apply lookup_insert_eq].
    eapply is_dir_lookup; [|exact Hd]. intros q Hq.
    rewrite lookup_insert_ne; congruence.
  - destruct (path_exists s p) eqn:He.
    + unfold remove. destruct (s !! p) as [[|]|]; [done| |done].
      intros [= <-]. apply lookup_delete_eq.
    + intros [= <-]. unfold path_exists in He. by destruct (s !! p).
Qed.

(** Where its postcondition holds already, an action changes nothing. *)
Lemma act_noop a s : holds a s -> act a s = (s, inr tt).
Proof.
  destruct a as [p|im p|p]; simpl.
  - apply makedirs_noop.
  - intros [Hd Hp]. unfold write_image. rewrite Hd, Hp.
    by rewrite insert_id.
  - intros Hp. unfold path_exists. by rewrite Hp.
Qed.

(** A later compatible action keeps the postcondition of an earlier one. *)
Lemma act_preserve a b s s' r :
  compatb a b = true -> act b s = (s', r) -> holds a s -> holds a s'.
Proof.
  intros Hc Hb. destruct a as [p|im p|p]; simpl.
  - intros Hd. eapply Forall_impl; [exact Hd|].
    intros q. eapply act_dir_preserved; eauto.
  - intros [Hd Hp]. split.
    + eapply is_dir_lookup; [|exact Hd]. intros q. eapply act_dir_preserved; eauto.
    + eapply act_file_preserved; eauto.
      destruct b as [q|im' q|q]; simpl in *; [done| |];
        apply bool_decide_eq_true in Hc; congruence.
  - eapply act_none_preserved; eauto.
Qed.

(** ** Runs of actions *)

Lemma run_acts_app l1 l2 s :
  run_acts (l1 ++ l2) s
  = match run_acts l1 s with
    | (s', inr _) => run_acts l2 s'
    | (s', inl e) => (s', inl e)
    end.
Proof.
  revert s. induction l1 as [|a l1 IH]; intros s; simpl; [done|].
  destruct (act a s) as [s1 [e|[]]]; [done|]. apply IH.
Qed.

Lemma run_acts_noop l s : Forall (fun a => holds a s) l -> run_acts l s = (s, inr tt).
Proof.
  induction 1 as [|a l Ha _ IH]; simpl; [done|].
  by rewrite (act_noop _ _ Ha).
Qed.

(** The invariant of a run: what the completed actions established still
    holds when the run ends, and an exception comes from the first action
    that was not completed, which would raise it again. *)
Lemma run_acts_inv acts : forall past s s' r,
  Forall (fun d => forallb (compatb d) acts = true) past ->
  ordered_compat acts = true ->
  Forall (fun a => holds a s) past ->
  run_acts acts s = (s', r) ->
  exists n, Forall (fun a => holds a s') (past ++ take n acts) /\
    match r with
    | inr _ => n = length acts
    | inl e => exists a, acts !! n = Some a /\ act a s' = (s', inl e)
    end.
Proof.
  induction acts as [|a acts IH]; intros past s s' r Hdone Hord Hholds; simpl.
  - intros [= <- <-]. exists 0%nat. by rewrite app_nil_r.
  - simpl in Hord. apply andb_true_iff in Hord as [Ha Hord].
    destruct (act a s) as [s1 [e|[]]] eqn:Hact.
    + intros [= <- <-]. pose proof (act_fail_frame _ _ _ _ Hact) as ->.
      exists 0%nat. rewrite app_nil_r. split; [done|]. by exists a.
    + intros Hrun.
      destruct (IH (past ++ [a]) s1 s' r) as (n & Hn & Hr); try done.
      * apply Forall_app. split.
        -- eapply Forall_impl; [exact Hdone|]. simpl.
           by intros d [_ ?]%andb_true_iff.
        -- by apply Forall_singleton.
      * apply Forall_app. split.
        -- apply Forall_forall. intros d Hd.
           rewrite Forall_forall in Hdone, Hholds.
           specialize (Hdone _ Hd). simpl in Hdone.
           apply andb_true_iff in Hdone as [Hda _].
           eapply act_preserve; eauto.
        -- apply Forall_singleton. by eapply act_establish.
      * exists (S n). simpl. rewrite <- app_assoc in Hn. split; [done|].
        destruct r as [e|[]]; [done|]. by subst n.
Qed.

(** After a run without exception every action's postcondition holds. *)
Lemma run_acts_ok_holds acts s s' :
  ordered_compat acts = true -> run_acts acts s = (s', inr tt) ->
  Forall (fun a => holds a s') acts.
Proof.
  intros Hord Hrun.
  destruct (run_acts_inv acts [] s s' (inr tt)) as (n & Hn & ->); try done.
  by rewrite firstn_all in Hn.
Qed.

(** Running the same actions again from the final state changes nothing
    and ends the same way. *)
Lemma run_acts_replay acts s s' r :
  ordered_compat acts = true -> run_acts acts s = (s', r) ->
  run_acts acts s' = (s', r).
Proof.
  intros Hord Hrun.
  destruct (run_acts_inv acts [] s s' r) as (n & Hn & Hr); try done.
  simpl in Hn. destruct r as [e|[]].
  - destruct Hr as (a & Hna & Ha).
    rewrite <- (take_drop_middle acts n a Hna).
    rewrite run_acts_app, (run_acts_noop _ _ Hn). simpl. by rewrite Ha.
  - subst n. rewrite firstn_all in Hn. by apply run_acts_noop.
Qed.

Lemma run_acts_file_preserved (acts : list Act) (s s' : FS) r (q : path) c :
  Forall (fun a => target a <> Some q) acts ->
  run_acts acts s = (s', r) ->
  s !! q = Some (File c) -> s' !! q = Some (File c).
Proof.
  intros Hacts. revert s. induction Hacts as [|a acts Ha _ IH]; intros s; simpl.
  - by intros [= <- _].
  - destruct (act a s) as [s1 [e|[]]] eqn:Hact.
    + intros [= <- _]. by eapply act_file_preserved.
    + intros Hrun Hq. eapply IH; [done|]. by eapply act_file_preserved.
Qed.

Lemma run_acts_none_preserved (acts : list Act) (s s' : FS) r (q : path) :
  forallb (compatb (ARemoveIfExists q)) acts = true ->
  run_acts acts s = (s', r) ->
  s !! q = None -> s' !! q = None.
Proof.
  revert s. induction acts as [|a acts IH]; intros s; simpl.
  - by intros _ [= <- _].
  - intros [Ha Hacts]%andb_true_iff.
    destruct (act a s) as [s1 [e|[]]] eqn:Hact.
    + intros [= <- _]. by eapply act_none_preserved.
    + intros Hrun Hq. eapply IH; [done|done|]. by eapply act_none_preserved.
Qed.

Lemma run_acts_err_footprint acts s s' e :
  run_acts acts s = (s', inl e) ->
  exists a q, a ∈ acts /\ exn_filename e = Some q /\ q ∈ footprint a.
Proof.
  revert s. induction acts as [|a acts IH]; intros s; simpl; [done|].
  destruct (act a s) as [s1 [e1|[]]] eqn:Hact.
  - intros [= <- <-]. destruct (act_err_footprint _ _ _ _ Hact) as (q & ? & ?).
    exists a, q. split; [apply list_elem_of_here|done].
  - intros (b & q & ? & ?)%IH. exists b, q. split; [by apply list_elem_of_further|done].
Qed.

(** ** Exchanging independent actions *)

Lemma ok_run_Some l s s' : ok_run l s = Some s' <-> run_acts l s = (s', inr tt).
Proof.
  unfold ok_run. destruct (run_acts l s) as [s1 [e|[]]]; split; try done.
  - by intros [= ->].
  - by intros [= ->].
Qed.

Lemma ok_run_app l1 l2 s : ok_run (l1 ++ l2) s = ok_run l1 s ≫= ok_run l2.
Proof.
  unfold ok_run. rewrite run_acts_app.
  by destruct (run_acts l1 s) as [s1 [e|[]]].
Qed.

Lemma ok_run_cons a l s : ok_run (a :: l) s = ok_run [a] s ≫= ok_run l.
Proof. apply (ok_run_app [a] l). Qed.

Lemma ok_makedirs_Some (p : path) (s s' : FS) :
  ok_run [AMakedirs p] s = Some s'
  <-> Forall (fun q => is_file s q = false) (prefixes p) /\ s' = add_dirs (prefixes p) s.
Proof.
  rewrite ok_run_Some. simpl. split.
  - destruct (makedirs p s) as [s1 [e|[]]] eqn:Hm; [done|].
    intros [= <-]. by apply makedirs_inr.
  - intros [Hnf ->]. unfold makedirs.
    destruct (list_find _ _) as [[k q]|] eqn:Hf; [|done].
    apply list_find_Some in Hf as (Hk & Hfile & _).
    apply list_elem_of_lookup_2 in Hk. rewrite Forall_forall in Hnf.
    by rewrite (Hnf _ Hk) in Hfile.
Qed.

Lemma ok_save_Some (im : Image) (p : path) (s s' : FS) :
  ok_run [ASave im p] s = Some s'
  <-> is_dir s (dirname p) = true /\ s !! p <> Some Dir
      /\ s' = <[p := File (Raster im)]> s.
Proof.
  rewrite ok_run_Some. simpl. unfold write_image. split.
  - destruct (is_dir s (dirname p)); [|done].
    destruct (s !! p) as [[|]|]; [done| |]; by intros [= <-].
  - intros (-> & Hp & ->). by destruct (s !! p) as [[|]|].
Qed.

Lemma ok_run_two a b s s' :
  ok_run [a; b] s = Some s'
  <-> exists s1, ok_run [a] s = Some s1 /\ ok_run [b] s1 = Some s'.
Proof.
  rewrite (ok_run_cons a [b]). destruct (ok_run [a] s) as [s1|]; simpl.
  - split; [by exists s1|]. by intros (? & [= <-] & ?).
  - split; [done|]. by intros (? & ? & ?).
Qed.

Lemma is_file_add_dirs (l : list path) (s : FS) (q : path) :
  is_file (add_dirs l s) q = if decide (q ∈ l) then false else is_file s q.
Proof. unfold is_file. rewrite lookup_add_dirs. by case_decide. Qed.

Lemma is_dir_insert_file (s : FS) (p q : path) c :
  p <> q -> is_dir (<[p := File c]> s) q = is_dir s q.
Proof.
  intros Hne. unfold is_dir. destruct q as [|x q]; [done|].
  by rewrite lookup_insert_ne.
Qed.

Lemma is_dir_add_dirs (l : list path) (s : FS) (q : path) :
  q ∉ l -> is_dir (add_dirs l s) q = is_dir s q.
Proof.
  intros Hq. unfold is_dir. destruct q as [|x q]; [done|].
  rewrite lookup_add_dirs. by rewrite decide_False.
Qed.

Lemma add_dirs_comm (l1 l2 : list path) (s : FS) :
  add_dirs l1 (add_dirs l2 s) = add_dirs l2 (add_dirs l1 s).
Proof.
  apply map_eq. intros q. rewrite !lookup_add_dirs. by repeat case_decide.
Qed.

Lemma add_dirs_insert (l : list path) (s : FS) (p : path) c :
  p ∉ l -> add_dirs l (<[p := File c]> s) = <[p := File c]> (add_dirs l s).
Proof.
  intros Hp. apply map_eq. intros q.
  rewrite lookup_add_dirs, !lookup_insert, lookup_add_dirs.
  repeat case_decide; try done. by subst.
Qed.

Lemma makedirs_makedirs (p q : path) (s s' : FS) :
  ok_run [AMakedirs p; AMakedirs q] s = Some s' ->
  ok_run [AMakedirs q; AMakedirs p] s = Some s'.
Proof.
  rewrite !ok_run_two.
  intros (s1 & [Hp ->]%ok_makedirs_Some & [Hq ->]%ok_makedirs_Some).
  rewrite Forall_forall in Hp, Hq.
  assert (Hq' : Forall (fun x => is_file s x = false) (prefixes q)).
  { apply Forall_forall. intros x Hx. specialize (Hq _ Hx).
    rewrite is_file_add_dirs in Hq. case_decide; [by apply Hp|done]. }
  exists (add_dirs (prefixes q) s). split; [by apply ok_makedirs_Some|].
  apply ok_makedirs_Some. split; [|apply add_dirs_comm].
  apply Forall_forall. intros x Hx. rewrite is_file_add_dirs.
  case_decide; [done|by apply Hp].
Qed.

Lemma makedirs_save (im : Image) (p q : path) (s s' : FS) :
  q ∉ prefixes p -> dirname q ∉ prefixes p ->
  ok_run [AMakedirs p; ASave im q] s = Some s'
  <-> ok_run [ASave im q; AMakedirs p] s = Some s'.
Proof.
  intros Hq Hdq. rewrite !ok_run_two. split.
  - intros (s1 & [Hp ->]%ok_makedirs_Some & (Hd & Hnd & ->)%ok_save_Some).
    rewrite is_dir_add_dirs in Hd by done.
    rewrite lookup_add_dirs, decide_False in Hnd by done.
    exists (<[q := File (Raster im)]> s). split; [by apply ok_save_Some|].
    apply ok_makedirs_Some. split; [|by rewrite add_dirs_insert].
    eapply Forall_impl; [apply Forall_forall; intros x Hx; exact (conj Hx (proj1 (Forall_forall _ _) Hp x Hx))|].
    simpl. intros x [Hx Hfx]. unfold is_file in *.
    rewrite lookup_insert_ne; [done|]. by intros ->.
  - intros (s1 & (Hd & Hnd & ->)%ok_save_Some & [Hp ->]%ok_makedirs_Some).
    assert (Hp' : Forall (fun x => is_file s x = false) (prefixes p)).
    { apply Forall_forall. intros x Hx. rewrite Forall_forall in Hp.
      specialize (Hp _ Hx). unfold is_file in *.
      rewrite lookup_insert_ne in Hp; [done|]. by intros ->. }
    exists (add_dirs (prefixes p) s). split; [by apply ok_makedirs_Some|].
    apply ok_save_Some. rewrite is_dir_add_dirs by done.
    rewrite lookup_add_dirs, decide_False by done.
    split; [done|]. split; [done|]. by rewrite add_dirs_insert.
Qed.

Lemma save_save (im1 im2 : Image) (p q : path) (s s' : FS) :
  p <> q -> p <> dirname q -> q <> dirname p ->
  ok_run [ASave im1 p; ASave im2 q] s = Some s' ->
  ok_run [ASave im2 q; ASave im1 p] s = Some s'.
Proof.
  intros Hpq Hpd Hqd. rewrite !ok_run_two.
  intros (s1 & (Hd1 & Hn1 & ->)%ok_save_Some & (Hd2 & Hn2 & ->)%ok_save_Some).
  rewrite is_dir_insert_file in Hd2 by done.
  rewrite lookup_insert_ne in Hn2 by done.
  exists (<[q := File (Raster im2)]> s). split; [by apply ok_save_Some|].
  apply ok_save_Some. rewrite is_dir_insert_file by done.
  rewrite lookup_insert_ne by done.
  split; [done|]. split; [done|]. by apply insert_insert_ne.
Qed.

(** Two independent actions in either order: the same runs end without
    exception, in the same file system. *)
Lemma indep_commute a b s :
  indepb a b = true -> ok_run [a; b] s = ok_run [b; a] s.
Proof.
  intros Hi. apply option_eq. intros s'.
  destruct a as [p|im1 p|p], b as [q|im2 q|q]; simpl in Hi; try done.
  - split; apply makedirs_makedirs.
  - apply bool_decide_eq_true in Hi as [? ?]. by apply makedirs_save.
  - apply bool_decide_eq_true in Hi as [? ?]. symmetry. by apply makedirs_save.
  - apply bool_decide_eq_true in Hi as (? & ? & ?).
    split; apply save_save; done.
Qed.

Lemma commute_one a l s :
  Forall (fun b => indepb a b = true) l -> ok_run (a :: l) s = ok_run (l ++ [a]) s.
Proof.
  intros Hl. revert s. induction Hl as [|b l Hb _ IH]; intros s; [done|].
  rewrite (ok_run_app [a; b] l), (indep_commute _ _ _ Hb).
  rewrite <- (ok_run_app [b; a] l). simpl.
  rewrite (ok_run_cons b (a :: l)), (ok_run_cons b (l ++ [a])).
  destruct (ok_run [b] s) as [s1|]; simpl; [apply IH|done].
Qed.

Lemma commute_blocks l1 l2 s :
  Forall (fun a => Forall (fun b => indepb a b = true) l2) l1 ->
  ok_run (l1 ++ l2) s = ok_run (l2 ++ l1) s.
Proof.
  intros Hl. revert s. induction Hl as [|a l1 Ha _ IH]; intros s.
  - by rewrite app_nil_r.
  - simpl. rewrite ok_run_cons.
    transitivity (ok_run [a] s ≫= ok_run (l2 ++ l1)).
    { destruct (ok_run [a] s); simpl; [apply IH|done]. }
    rewrite <- ok_run_cons.
    change (a :: l2 ++ l1) with ((a :: l2) ++ l1).
    rewrite ok_run_app, (commute_one _ _ _ Ha), <- ok_run_app.
    by rewrite <- app_assoc.
Qed.

(** Blocks of actions that are pairwise independent can be run in any
    order. *)
Lemma commute_perm {X} (f : X -> list Act) (l l' : list X) :
  l ≡ₚ l' ->
  (forall x y, x ∈ l -> y ∈ l -> x <> y ->
               Forall (fun a => Forall (fun b => indepb a b = true) (f y)) (f x)) ->
  NoDup l ->
  forall s, ok_run (concat (f <$> l)) s = ok_run (concat (f <$> l')) s.
Proof.
  induction 1 as [|x l l' Hperm IH|x y l|l l' l'' H1 IH1 H2 IH2]; intros Hind Hnd s.
  - done.
  - rewrite !fmap_cons, !concat_cons, !ok_run_app.
    apply NoDup_cons in Hnd as [_ Hnd].
    destruct (ok_run (f x) s) as [s1|]; simpl; [|done].
    apply IH; [|done]. intros a b Ha Hb. apply Hind; by apply list_elem_of_further.
  - rewrite !fmap_cons, !concat_cons, !app_assoc, !(ok_run_app (_ ++ _)).
    rewrite commute_blocks; [done|].
    apply NoDup_cons in Hnd as [Hy _].
    apply Hind; [set_solver|set_solver|]. intros ->. set_solver.
  - rewrite IH1 by done. apply IH2.
    + intros a b Ha Hb. apply Hind; by rewrite H1.
    + by rewrite <- H1.
Qed.

(** * The script and its trace

    A run of the script changes the file system exactly as its list of
    actions does, ends the same way, only ever adds objects to the store,
    and prints its message when it ends without exception. *)

Section Simulation.

Variable resample : Image -> Z * Z -> Image.
Variable covers : Box -> Z -> Z -> bool.

Lemma mipmap_sim s h o img im bucket :
  h !! img = Some im ->
  exists h',
    mipmap resample covers img bucket (mkWorld s h o)
    = (mkWorld (fst (run_acts (bucket_acts resample covers im bucket) s))
               (h ++ h') o,
       snd (run_acts (bucket_acts resample covers im bucket) s)).
Proof.
  intros Him. destruct bucket as [density size].
  unfold mipmap, bucket_acts, launcher_path, round_path, mipmap_dir.
  cbn [fst snd run_acts act].
  set (dir := os_path_join res_dir ("mipmap-" +:+ density)).
  set (resized := resample im (size, size)).
  destruct (makedirs dir s) as [s1 [e|[]]] eqn:H1.
  { exists []. rewrite (bind_inl _ _ _ _ _ (os_makedirs_inl _ h o _ _ _ H1)).
    by rewrite app_nil_r. }
  rewrite (bind_inr _ _ _ _ _ (os_makedirs_inr _ h o _ _ H1)).
  rewrite (bind_inr _ _ _ _ _ (Image_resize_ok resample s1 _ o _ _ (size, size) Him)).
  fold resized.
  assert (Hres : (h ++ [resized]) !! length h = Some resized)
    by by apply list_lookup_middle.
  destruct (write_image resized (os_path_join dir "ic_launcher.png") s1)
    as [s2 [e|[]]] eqn:H2.
  { exists [resized].
    by rewrite (bind_inl _ _ _ _ _ (Image_save_inl _ _ o _ _ _ _ _ Hres H2)). }
  rewrite (bind_inr _ _ _ _ _ (Image_save_inr _ _ o _ _ _ _ Hres H2)).
  rewrite (bind_inr _ _ _ _ _ (create_round_crop_spec covers s2 _ o _ _ Hres)).
  set (h3 := (h ++ [resized]) ++ _).
  assert (Hround : h3 !! S (length (h ++ [resized])) = Some (round_of covers resized)).
  { unfold h3. rewrite lookup_app_r by lia.
    by replace (S (length (h ++ [resized])) - length (h ++ [resized]))%nat
      with 1%nat by lia. }
  exists [resized; round_mask covers (im_size resized); round_of covers resized].
  replace (h ++ [resized; round_mask covers (im_size resized); round_of covers resized])
    with h3 by (unfold h3; by rewrite <- app_assoc).
  destruct (write_image (round_of covers resized)
              (os_path_join dir "ic_launcher_round.png") s2) as [s3 [e|[]]] eqn:H3.
  - by rewrite (Image_save_inl _ _ o _ _ _ _ _ Hround H3).
  - by rewrite (Image_save_inr _ _ o _ _ _ _ Hround H3).
Qed.

(** The loop over the buckets. *)
Lemma for_each_sim table : forall s h o img im,
  h !! img = Some im ->
  exists h',
    for_each table (mipmap resample covers img) (mkWorld s h o)
    = (mkWorld (fst (run_acts (concat (bucket_acts resample covers im <$> table)) s))
               (h ++ h') o,
       snd (run_acts (concat (bucket_acts resample covers im <$> table)) s)).
Proof.
  induction table as [|b table IH]; intros s h o img im Him.
  - exists []. by rewrite app_nil_r.
  - destruct (mipmap_sim s h o img im b Him) as [h1 H1].
    rewrite fmap_cons, concat_cons, run_acts_app.
    destruct (run_acts (bucket_acts resample covers im b) s) as [s1 [e|[]]] eqn:Hb;
      simpl in H1.
    + exists h1. cbn [for_each]. by rewrite (bind_inl _ _ _ _ _ H1).
    + destruct (IH s1 (h ++ h1) o img im) as [h2 H2];
        [by apply lookup_app_l_Some|].
      exists (h1 ++ h2). cbn [for_each].
      rewrite (bind_inr _ _ _ _ _ H1), H2. by rewrite app_assoc.
Qed.

(** The statements after the loop. *)
Lemma foreground_sim s h o img im :
  h !! img = Some im ->
  exists h',
    (os_makedirs fg_dir;;
     fg_img ← Image_resize resample img (432, 432);
     Image_save fg_img fg_path;;
     found ← os_path_exists xml_path;
     when found (os_remove xml_path);;
     print "Icons generated successfully!") (mkWorld s h o)
    = (mkWorld (fst (run_acts (foreground_acts resample im ++ [ARemoveIfExists xml_path]) s))
               (h ++ h')
               (o ++ match snd (run_acts (foreground_acts resample im
                                          ++ [ARemoveIfExists xml_path]) s) with
                     | inr _ => ["Icons generated successfully!"%string]
                     | inl _ => []
                     end),
       snd (run_acts (foreground_acts resample im ++ [ARemoveIfExists xml_path]) s)).
Proof.
  intros Him. unfold foreground_acts. cbn [app run_acts act].
  set (fg := resample im (432, 432)).
  destruct (makedirs fg_dir s) as [s1 [e|[]]] eqn:H1.
  { exists []. rewrite (bind_inl _ _ _ _ _ (os_makedirs_inl _ h o _ _ _ H1)).
    by rewrite !app_nil_r. }
  rewrite (bind_inr _ _ _ _ _ (os_makedirs_inr _ h o _ _ H1)).
  rewrite (bind_inr _ _ _ _ _ (Image_resize_ok resample s1 _ o _ _ (432, 432) Him)).
  fold fg. exists [fg].
  assert (Hfg : (h ++ [fg]) !! length h = Some fg) by by apply list_lookup_middle.
  destruct (write_image fg fg_path s1) as [s2 [e|[]]] eqn:H2.
  { rewrite (bind_inl _ _ _ _ _ (Image_save_inl _ _ o _ _ _ _ _ Hfg H2)).
    by rewrite app_nil_r. }
  rewrite (bind_inr _ _ _ _ _ (Image_save_inr _ _ o _ _ _ _ Hfg H2)).
  erewrite bind_inr by reflexivity. cbn [fs].
  unfold when, os_remove.
  destruct (path_exists s2 xml_path); [|done].
  destruct (remove xml_path s2) as [s3 [e|[]]] eqn:H3.
  - erewrite bind_inl by (unfold lift_fs; cbn [fs]; rewrite H3; reflexivity).
    by rewrite app_nil_r.
  - erewrite bind_inr by (unfold lift_fs; cbn [fs]; rewrite H3; reflexivity).
    done.
Qed.

(** The whole run. *)
Lemma generate_icons_sim table s h o :
  exists h',
    generate_icons resample covers table (mkWorld s h o)
    = (mkWorld (fst (generate_fs resample covers table s))
               (h ++ h')
               (o ++ match snd (generate_fs resample covers table s) with
                     | inr _ => ["Icons generated successfully!"%string]
                     | inl _ => []
                     end),
       snd (generate_fs resample covers table s))
    /\ forall src, s !! source_image_path = Some (File (Raster src)) ->
                   exists h'', h' = [src; convert_rgba src] ++ h''.
Proof.
  unfold generate_icons, generate_fs.
  destruct (read_image source_image_path s) as [s0 [e|im0]] eqn:Hr.
  { exists []. rewrite (bind_inl _ _ _ _ _ (Image_open_inl _ h o _ _ _ Hr)).
    split; [by rewrite !app_nil_r|].
    intros src Hsrc. by destruct (read_image_inl _ _ _ _ Hr) as (_ & Hno & _), (Hno src). }
  rewrite (bind_inr _ _ _ _ _ (Image_open_inr _ h o _ _ _ Hr)).
  destruct (read_image_inr _ _ _ _ Hr) as [_ Hsrc0].
  assert (Him0 : (h ++ [im0]) !! length h = Some im0) by by apply list_lookup_middle.
  rewrite (bind_inr _ _ _ _ _ (Image_convert_RGBA_ok s _ o _ _ Him0)).
  cbv beta zeta.
  set (im := convert_rgba im0).
  set (img := length (h ++ [im0])).
  assert (Him : ((h ++ [im0]) ++ [im]) !! img = Some im) by by apply list_lookup_middle.
  destruct (for_each_sim table s _ o img im Him) as [h1 H1].
  destruct (foreground_sim
              (fst (run_acts (concat (bucket_acts resample covers im <$> table)) s))
              (((h ++ [im0]) ++ [im]) ++ h1) o img im) as [h2 H2];
    [by apply lookup_app_l_Some|].
  unfold script, write_acts.
  rewrite <- (app_assoc (concat _) (foreground_acts _ _)), run_acts_app.
  destruct (run_acts (concat (bucket_acts resample covers im <$> table)) s)
    as [s1 [e|[]]] eqn:Hb; cbn [fst snd] in H1, H2.
  - exists ([im0; im] ++ h1). split.
    + rewrite (bind_inl _ _ _ _ _ H1). cbn [fst snd].
      by rewrite app_nil_r, <- !app_assoc.
    + intros src Hsrc. exists h1. rewrite Hsrc0 in Hsrc. by injection Hsrc as <-.
  - exists ([im0; im] ++ h1 ++ h2). split.
    + rewrite (bind_inr _ _ _ _ _ H1).
      etrans; [exact H2|].
      by rewrite <- !app_assoc.
    + intros src Hsrc. exists (h1 ++ h2). rewrite Hsrc0 in Hsrc. by injection Hsrc as <-.
Qed.

End Simulation.

(** * The trace of the script for the five buckets *)

Section ScriptFacts.

Variable resample : Image -> Z * Z -> Image.
Variable covers : Box -> Z -> Z -> bool.

(** A run of the script, projected on the file system. *)
Lemma generate_icons_run table w w' r :
  generate_icons resample covers table w = (w', r) ->
  generate_fs resample covers table (fs w) = (fs w', r)
  /\ (exists h', heap w' = heap w ++ h'
                 /\ forall src, fs w !! source_image_path = Some (File (Raster src)) ->
                                exists h'', h' = [src; convert_rgba src] ++ h'')
  /\ stdout w' = stdout w ++ match r with
                            | inr _ => ["Icons generated successfully!"%string]
                            | inl _ => []
                            end.
Proof.
  destruct w as [s h o].
  destruct (generate_icons_sim resample covers table s h o) as (h' & -> & Hh').
  intros [= <- <-]. cbn [fs heap stdout].
  split; [by destruct (generate_fs _ _ _ _)|]. split; [by exists h'|done].
Qed.

(** Either the source cannot be opened, and nothing happens, or the
    actions of the script run on the decoded and converted source. *)
Lemma generate_fs_inv (table : list (string * Z)) (s s' : FS) r :
  generate_fs resample covers table s = (s', r) ->
  (exists src, s !! source_image_path = Some (File (Raster src))
               /\ run_acts (script resample covers table (convert_rgba src)) s = (s', r))
  \/ (s' = s /\ (forall src, s !! source_image_path <> Some (File (Raster src)))
      /\ exists e, r = inl e /\ exn_filename e = Some source_image_path).
Proof.
  unfold generate_fs.
  destruct (read_image source_image_path s) as [s0 [e|src]] eqn:Hr.
  - intros [= <- <-]. right.
    destruct (read_image_inl _ _ _ _ Hr) as (_ & Hno & He).
    split; [done|]. split; [done|]. by exists e.
  - intros Hrun. left. exists src.
    destruct (read_image_inr _ _ _ _ Hr) as [_ Hsrc]. by split.
Qed.

Lemma generate_fs_source (table : list (string * Z)) (s : FS) src :
  s !! source_image_path = Some (File (Raster src)) ->
  generate_fs resample covers table s
  = run_acts (script resample covers table (convert_rgba src)) s.
Proof. intros Hsrc. unfold generate_fs, read_image. by rewrite Hsrc. Qed.

(** The paths of the script for the five buckets are pairwise distinct
    where it matters: the checks are computations on the paths, the
    images written play no part in them. *)
Lemma script_ordered img : ordered_compat (script resample covers sizes img) = true.
Proof. vm_compute. reflexivity. Qed.

Lemma write_acts_ordered img : ordered_compat (write_acts resample covers sizes img) = true.
Proof. vm_compute. reflexivity. Qed.

Lemma write_acts_compat_remove img :
  forallb (fun a => compatb a (ARemoveIfExists xml_path))
          (write_acts resample covers sizes img) = true.
Proof. vm_compute. reflexivity. Qed.

Lemma script_compat_xml img :
  forallb (compatb (ARemoveIfExists xml_path)) (script resample covers sizes img) = true.
Proof. vm_compute. reflexivity. Qed.

Lemma write_acts_not_xml img :
  forallb (fun a => bool_decide (xml_path ∉ footprint a))
          (write_acts resample covers sizes img) = true.
Proof. vm_compute. reflexivity. Qed.

Lemma script_not_source img :
  forallb (fun a => bool_decide (target a <> Some source_image_path))
          (script resample covers sizes img) = true.
Proof. vm_compute. reflexivity. Qed.

(** The exception of a failed image write or directory creation never
    names the XML drawable. *)
Lemma write_acts_err_not_xml img s s' e :
  run_acts (write_acts resample covers sizes img) s = (s', inl e) ->
  exn_filename e <> Some xml_path.
Proof.
  intros (a & q & Ha & He & Hq)%run_acts_err_footprint Hxml.
  pose proof (write_acts_not_xml img) as Hall.
  rewrite forallb_forall in Hall. apply list_elem_of_In in Ha.
  specialize (Hall _ Ha). apply bool_decide_eq_true in Hall.
  congruence.
Qed.

(** When a run reaches the removal of the XML drawable, whatever the
    removal does, everything the image writes established holds in the
    final file system. *)
Lemma script_outputs img s s' r :
  run_acts (script resample covers sizes img) s = (s', r) ->
  match r with inr _ => True | inl e => exn_filename e = Some xml_path end ->
  Forall (fun a => holds a s') (write_acts resample covers sizes img).
Proof.
  unfold script. rewrite run_acts_app.
  destruct (run_acts (write_acts resample covers sizes img) s)
    as [s1 [e|[]]] eqn:Hw.
  - intros [= <- <-] He. by destruct (write_acts_err_not_xml _ _ _ _ Hw).
  - cbn [run_acts]. intros Hrm _.
    assert (exists r1, act (ARemoveIfExists xml_path) s1 = (s', r1)) as [r1 Hact].
    { destruct (act (ARemoveIfExists xml_path) s1) as [s2 [e|[]]];
        injection Hrm as <- _; by eexists. }
    pose proof (run_acts_ok_holds _ _ _ (write_acts_ordered img) Hw) as Hholds.
    pose proof (write_acts_compat_remove img) as Hc.
    rewrite forallb_forall in Hc.
    apply Forall_forall. intros a Ha. rewrite Forall_forall in Hholds.
    eapply act_preserve; [|exact Hact|by apply Hholds].
    apply Hc. by apply list_elem_of_In.
Qed.

(** The files a bucket leaves, read off the postconditions. *)
Lemma write_acts_bucket (img : Image) (s : FS) density size :
  (density, size) ∈ sizes ->
  Forall (fun a => holds a s) (write_acts resample covers sizes img) ->
  s !! launcher_path density = Some (File (Raster (resample img (size, size))))
  /\ s !! round_path density
     = Some (File (Raster (round_of covers (resample img (size, size))))).
Proof.
  intros Hin Hall. unfold write_acts in Hall.
  apply Forall_app in Hall as [Hall _].
  rewrite Forall_concat, Forall_fmap, Forall_forall in Hall.
  specialize (Hall _ Hin). simpl in Hall.
  apply Forall_cons in Hall as [_ Hall].
  apply Forall_cons in Hall as [[_ H1] Hall].
  apply Forall_cons in Hall as [[_ H2] _].
  by split.
Qed.

Lemma write_acts_foreground (img : Image) (s : FS) table :
  Forall (fun a => holds a s) (write_acts resample covers table img) ->
  s !! fg_path = Some (File (Raster (resample img (432, 432)))).
Proof.
  intros Hall. unfold write_acts in Hall.
  apply Forall_app in Hall as [_ Hall].
  apply Forall_cons in Hall as [_ Hall].
  apply Forall_cons in Hall as [[_ H1] _]. done.
Qed.

End ScriptFacts.

(** * The executable instances meet the contracts *)

Lemma nearest_resample_size im sz : im_size (nearest_resample im sz) = sz.
Proof. by destruct sz. Qed.

Lemma nearest_resample_mode im sz : im_mode (nearest_resample im sz) = im_mode im.
Proof. by destruct sz. Qed.




(** * Properties of a run *)


Section RunFacts.

Variable resample : Image -> Z * Z -> Image.
Variable covers : Box -> Z -> Z -> bool.

(** What a run that reached the removal of the XML drawable leaves. *)
Lemma main_outputs w w' r :
  main resample covers w = (w', r) ->
  match r with inr _ => True | inl e => exn_filename e = Some xml_path end ->
  exists src,
    fs w !! source_image_path = Some (File (Raster src))
    /\ Forall (fun a => holds a (fs w')) (write_acts resample covers sizes (convert_rgba src))
    /\ (r = inr tt -> fs w' !! xml_path = None).
Proof.
  intros (Hfs & _ & _)%generate_icons_run Hr.
  apply generate_fs_inv in Hfs as [(src & Hsrc & Hrun)|(_ & _ & e & -> & He)].
  - exists src. split; [done|]. split; [by eapply script_outputs|].
    intros ->.
    pose proof (run_acts_ok_holds _ _ _ (script_ordered resample covers _) Hrun) as Hall.
    unfold script in Hall. apply Forall_app in Hall as [_ Hall].
    rewrite Forall_singleton in Hall. exact Hall.
  - rewrite He in Hr. by vm_compute in Hr.
Qed.

Lemma main_bucket w w' density size :
  main resample covers w = (w', inr tt) ->
  (density, size) ∈ sizes ->
  exists src,
    fs w !! source_image_path = Some (File (Raster src))
    /\ fs w' !! launcher_path density
       = Some (File (Raster (resample (convert_rgba src) (size, size))))
    /\ fs w' !! round_path density
       = Some (File (Raster (round_of covers (resample (convert_rgba src) (size, size))))).
Proof.
  intros Hmain Hin.
  destruct (main_outputs _ _ _ Hmain I) as (src & Hsrc & Hall & _).
  exists src. split; [done|]. by eapply write_acts_bucket.
Qed.

Lemma main_result w :
  snd (main resample covers w) = snd (generate_fs resample covers sizes (fs w)).
Proof.
  destruct (main resample covers w) as [w' r] eqn:Hmain.
  apply generate_icons_run in Hmain as (Hfs & _). by rewrite Hfs.
Qed.

Lemma main_fs w :
  fs (fst (main resample covers w)) = fst (generate_fs resample covers sizes (fs w)).
Proof.
  destruct (main resample covers w) as [w' r] eqn:Hmain.
  apply generate_icons_run in Hmain as (Hfs & _). by rewrite Hfs.
Qed.

(** Every exception of a run is an operating-system or decoding error
    about a path: the mask always fits the image it is put on, and no
    reference is ever dangling. *)
Lemma main_exception_names_a_path w w' e :
  main resample covers w = (w', inl e) -> is_Some (exn_filename e).
Proof.
  intros (Hfs & _ & _)%generate_icons_run.
  apply generate_fs_inv in Hfs as [(src & _ & Hrun)|(_ & _ & e' & [= <-] & He)].
  - apply run_acts_err_footprint in Hrun as (a & q & _ & Hq & _). by exists q.
  - by eexists.
Qed.

(** The runs used as examples, whatever the imaging primitives. *)
Lemma base_run_ok : snd (main resample covers (boot base_fs)) = inr tt.
Proof. rewrite main_result. vm_compute. reflexivity. Qed.

Lemma stale_run_ok : snd (main resample covers (boot stale_fs)) = inr tt.
Proof. rewrite main_result. vm_compute. reflexivity. Qed.

Lemma xml_dir_run_fails :
  snd (main resample covers (boot xml_dir_fs)) = inl (IsADirectoryError xml_path).
Proof. rewrite main_result. vm_compute. reflexivity. Qed.

End RunFacts.

(** * The round crop *)






(** A run written as the pair of its final world and its outcome. *)
Lemma run_pair {A} (m : M A) w r : snd (m w) = r -> m w = (fst (m w), r).
Proof. intros <-. apply surjective_pairing. Qed.

(** * The square icons *)

(** C3.  For each of the five buckets the launcher icon a run leaves is
    square, its edge is the edge prescribed for the bucket (48, 72, 96,
    144, 192) and its mode is RGBA, whatever the source image.  The
    imaging library is taken to return an image of the requested size and
    of the mode of its argument. *)
Theorem launcher_icon_size resample covers :
  (forall im sz, im_size (resample im sz) = sz) ->
  (forall im sz, im_mode (resample im sz) = im_mode im) ->
  forall w w' density size,
    (density, size) ∈ [("mdpi", 48); ("hdpi", 72); ("xhdpi", 96);
                        ("xxhdpi", 144); ("xxxhdpi", 192)]%string ->
    main resample covers w = (w', inr tt) ->
    exists icon,
      fs w' !! (res_dir ++ ["mipmap-" +:+ density; "ic_launcher.png"]%string)
      = Some (File (Raster icon))
      /\ width icon = size /\ height icon = size
      /\ im_mode icon = Mode_RGBA.
Proof.
  intros Hsize Hmode w w' density size Hbucket Hmain.
  destruct (main_bucket _ _ _ _ _ _ Hmain Hbucket) as (src & _ & Hicon & _).
  exists (resample (convert_rgba src) (size, size)). split.
  - unfold launcher_path, mipmap_dir, os_path_join in Hicon.
    by rewrite <- app_assoc in Hicon.
  - unfold width, height. by rewrite Hsize, Hmode.
Qed.

Lemma launcher_icon_size_witness :
  exists icon,
    fs (fst (main nearest_resample lattice_covers (boot base_fs)))
      !! (res_dir ++ ["mipmap-" +:+ "hdpi"; "ic_launcher.png"]%string)
    = Some (File (Raster icon))
    /\ width icon = 72 /\ height icon = 72
    /\ im_mode icon = Mode_RGBA.
Proof.
  assert (Hin : (("hdpi"%string, 72) : string * Z)
                ∈ [("mdpi", 48); ("hdpi", 72); ("xhdpi", 96);
                   ("xxhdpi", 144); ("xxxhdpi", 192)]%string) by set_solver.
  exact (launcher_icon_size nearest_resample lattice_covers
           nearest_resample_size nearest_resample_mode
           (boot base_fs) _ "hdpi"%string 72 Hin
           (run_pair _ _ _ (base_run_ok nearest_resample lattice_covers))).
Defined.

(** C4.  The foreground image a run leaves is the resize to 432x432 of
    the decoded, RGBA-converted source image itself, whatever the size of
    the source; none of the bucket images is involved.  The imaging
    library is taken to return an image of the requested size. *)
Theorem foreground_from_source resample covers :
  (forall im sz, im_size (resample im sz) = sz) ->
  forall w w' src,
    fs w !! source_image_path = Some (File (Raster src)) ->
    main resample covers w = (w', inr tt) ->
    exists fg_img,
      fs w' !! (res_dir ++ ["drawable"; "ic_launcher_foreground.png"]%string)
      = Some (File (Raster fg_img))
      /\ fg_img = resample (convert_rgba src) (432, 432)
      /\ width fg_img = 432 /\ height fg_img = 432.
Proof.
  intros Hsize w w' src Hsrc Hmain.
  destruct (main_outputs _ _ _ _ _ Hmain I) as (src' & Hsrc' & Hall & _).
  assert (src' = src) as -> by congruence.
  exists (resample (convert_rgba src) (432, 432)). split.
  - by apply write_acts_foreground in Hall.
  - unfold width, height. by rewrite Hsize.
Qed.

Lemma foreground_from_source_witness :
  exists fg_img,
    fs (fst (main nearest_resample lattice_covers (boot base_fs)))
      !! (res_dir ++ ["drawable"; "ic_launcher_foreground.png"]%string)
    = Some (File (Raster fg_img))
    /\ fg_img = nearest_resample (convert_rgba sample) (432, 432)
    /\ width fg_img = 432 /\ height fg_img = 432.
Proof.
  assert (Hsrc : fs (boot base_fs) !! source_image_path = Some (File (Raster sample)))
    by (vm_compute; reflexivity).
  exact (foreground_from_source nearest_resample lattice_covers
           nearest_resample_size (boot base_fs) _ sample Hsrc
           (run_pair _ _ _ (base_run_ok nearest_resample lattice_covers))).
Defined.

(** * Errors *)

(** C5.  When the source path is not a regular file, the run raises an
    exception about that path and leaves the world as it found it: no
    directory was created and no file written. *)
Theorem missing_source_aborts resample covers w :
  (forall c, fs w !! source_image_path <> Some (File c)) ->
  exists e,
    main resample covers w = (w, inl e)
    /\ exn_filename e = Some source_image_path.
Proof.
  intros Hno. destruct w as [s h o]. cbn [fs] in Hno.
  assert (exists e, read_image source_image_path s = (s, inl e)
                    /\ exn_filename e = Some source_image_path) as (e & Hr & He).
  { unfold read_image. destruct (s !! source_image_path) as [[|c]|] eqn:Hp.
    - by eexists.
    - by destruct (Hno c).
    - by eexists. }
  exists e. split; [|done]. unfold main, generate_icons.
  by rewrite (bind_inl _ _ _ _ _ (Image_open_inl _ h o _ _ _ Hr)).
Qed.

Lemma missing_source_aborts_witness :
  exists e,
    main nearest_resample lattice_covers (boot empty_fs) = (boot empty_fs, inl e)
    /\ exn_filename e = Some source_image_path.
Proof.
  apply (missing_source_aborts nearest_resample lattice_covers (boot empty_fs)).
  intros c. vm_compute. discriminate.
Defined.

(** * The stale XML drawable *)

Section CleanupFacts.

Variable resample : Image -> Z * Z -> Image.
Variable covers : Box -> Z -> Z -> bool.

(** Without an XML drawable in place, the run does not create one and
    the removal step raises nothing. *)
Lemma script_without_xml (img : Image) (s s' : FS) r :
  s !! xml_path = None ->
  run_acts (script resample covers sizes img) s = (s', r) ->
  s' !! xml_path = None
  /\ forall e, r = inl e -> exn_filename e <> Some xml_path.
Proof.
  intros Hxml Hrun. split.
  { eapply run_acts_none_preserved; [apply script_compat_xml|exact Hrun|done]. }
  intros e -> He. revert Hrun. unfold script. rewrite run_acts_app.
  destruct (run_acts (write_acts resample covers sizes img) s)
    as [s1 [e1|[]]] eqn:Hw.
  - intros [= <- <-]. by destruct (write_acts_err_not_xml _ _ _ _ _ _ Hw).
  - pose proof (script_compat_xml resample covers img) as Hc. unfold script in Hc.
    rewrite forallb_app in Hc. apply andb_true_iff in Hc as [Hc _].
    pose proof (run_acts_none_preserved _ _ _ _ _ Hc Hw Hxml) as Hnone.
    cbn [run_acts act]. unfold path_exists. by rewrite Hnone.
Qed.

(** A second run from the final file system of a first one ends the same
    way and leaves the file system as it is. *)
Lemma generate_fs_replay (s s' : FS) r :
  generate_fs resample covers sizes s = (s', r) ->
  generate_fs resample covers sizes s' = (s', r).
Proof.
  intros Hrun.
  destruct (generate_fs_inv _ _ _ _ _ _ Hrun)
    as [(src & Hsrc & Hacts)|(-> & _ & _)]; [|done].
  assert (Hsrc' : s' !! source_image_path = Some (File (Raster src))).
  { eapply run_acts_file_preserved; [|exact Hacts|exact Hsrc].
    pose proof (script_not_source resample covers (convert_rgba src)) as Hns.
    rewrite forallb_forall in Hns. apply Forall_forall. intros a Ha.
    apply list_elem_of_In in Ha. specialize (Hns _ Ha).
    by apply bool_decide_eq_true in Hns. }
  rewrite (generate_fs_source _ _ _ _ _ Hsrc').
  eapply run_acts_replay; [apply script_ordered|exact Hacts].
Qed.

End CleanupFacts.

(** C6.  When an XML drawable is in place before a run that ends without
    exception, it is gone afterwards.  When none is in place, none is
    there afterwards either, and no exception of the run is about it. *)
Theorem stale_xml_removed resample covers w w' r :
  main resample covers w = (w', r) ->
  (is_Some (fs w !! xml_path) -> r = inr tt -> fs w' !! xml_path = None)
  /\ (fs w !! xml_path = None ->
      fs w' !! xml_path = None
      /\ forall e, r = inl e -> exn_filename e <> Some xml_path).
Proof.
  intros Hmain. split.
  - intros _ ->. destruct (main_outputs _ _ _ _ _ Hmain I) as (_ & _ & _ & Hxml).
    by apply Hxml.
  - intros Hxml. apply generate_icons_run in Hmain as (Hfs & _).
    destruct (generate_fs_inv _ _ _ _ _ _ Hfs)
      as [(src & _ & Hacts)|(-> & _ & e & -> & He)].
    + by eapply script_without_xml.
    + split; [done|]. intros e' [= <-]. rewrite He. by vm_compute.
Qed.

Lemma stale_xml_removed_witness :
  (is_Some (fs (boot stale_fs) !! xml_path)
   /\ fs (fst (main nearest_resample lattice_covers (boot stale_fs))) !! xml_path = None)
  /\ (fs (boot base_fs) !! xml_path = None
      /\ fs (fst (main nearest_resample lattice_covers (boot base_fs))) !! xml_path = None).
Proof.
  assert (Hstale : is_Some (fs (boot stale_fs) !! xml_path))
    by (vm_compute; by eexists).
  assert (Hnone : fs (boot base_fs) !! xml_path = None)
    by (vm_compute; reflexivity).
  split.
  - split; [exact Hstale|].
    exact (proj1 (stale_xml_removed nearest_resample lattice_covers (boot stale_fs) _ (inr tt)
                    (run_pair _ _ _ (stale_run_ok nearest_resample lattice_covers)))
                 Hstale eq_refl).
  - split; [exact Hnone|].
    exact (proj1 (proj2 (stale_xml_removed nearest_resample lattice_covers (boot base_fs) _
                           (inr tt)
                           (run_pair _ _ _ (base_run_ok nearest_resample lattice_covers)))
                        Hnone)).
Defined.

(** * Running twice *)

(** C7.  A second run, started in the world the first run left, leaves
    every file as the first run left it and ends as the first run ended,
    for every initial world and so for every source image. *)
Theorem second_run_changes_nothing resample covers w :
  fs (fst (main resample covers (fst (main resample covers w))))
  = fs (fst (main resample covers w))
  /\ snd (main resample covers (fst (main resample covers w)))
     = snd (main resample covers w).
Proof.
  rewrite (main_fs _ _ (fst _)), (main_result _ _ (fst _)), main_fs, main_result.
  destruct (generate_fs resample covers sizes (fs w)) as [s' r] eqn:Hrun.
  cbn [fst snd]. by rewrite (generate_fs_replay _ _ _ _ _ Hrun).
Qed.

(** * The object store *)

(** C9.  The image object the script keeps in [img] holds, when the run
    ends, the pixels it was loaded with, and so does every object that
    existed before the run; [create_round_crop] and [resize] change no
    object that exists when they are called, they only add new ones.  The
    files of a run that ends without exception are given by the decoded
    source pixels alone. *)
Theorem source_object_never_modified resample covers w w' r src :
  fs w !! source_image_path = Some (File (Raster src)) ->
  main resample covers w = (w', r) ->
  heap w' !! S (length (heap w)) = Some (convert_rgba src)
  /\ take (length (heap w)) (heap w') = heap w
  /\ (forall v l, take (length (heap v)) (heap (fst (create_round_crop covers l v)))
                  = heap v)
  /\ (forall v l sz, take (length (heap v)) (heap (fst (Image_resize resample l sz v)))
                     = heap v)
  /\ (r = inr tt ->
      (forall density size, (density, size) ∈ sizes ->
         fs w' !! launcher_path density
         = Some (File (Raster (resample (convert_rgba src) (size, size))))
         /\ fs w' !! round_path density
            = Some (File (Raster (round_of covers
                                    (resample (convert_rgba src) (size, size))))))
      /\ fs w' !! fg_path = Some (File (Raster (resample (convert_rgba src) (432, 432))))).
Proof.
  intros Hsrc Hmain.
  pose proof Hmain as (_ & (h' & Hheap & Hh') & _)%generate_icons_run.
  destruct (Hh' _ Hsrc) as [h'' ->]. rewrite Hheap.
  split.
  { rewrite lookup_app_r by lia.
    by replace (S (length (heap w)) - length (heap w))%nat with 1%nat by lia. }
  split; [by rewrite take_app_length|].
  split.
  { intros [s h o] l. cbn [heap].
    destruct (h !! l) as [im|] eqn:Hl.
    - rewrite (create_round_crop_spec _ _ _ _ _ _ Hl). cbn [fst heap].
      by rewrite take_app_length.
    - rewrite (create_round_crop_dangling _ _ _ _ _ Hl). cbn [fst heap].
      by rewrite firstn_all. }
  split.
  { intros [s h o] l sz. cbn [heap].
    destruct (h !! l) as [im|] eqn:Hl.
    - rewrite (Image_resize_ok _ _ _ _ _ _ sz Hl). cbn [fst heap].
      by rewrite take_app_length.
    - rewrite (Image_resize_dangling _ _ _ _ _ sz Hl). cbn [fst heap].
      by rewrite firstn_all. }
  intros ->. destruct (main_outputs _ _ _ _ _ Hmain I) as (src' & Hsrc' & Hall & _).
  assert (src' = src) as -> by congruence.
  split.
  - intros density size Hin. by eapply write_acts_bucket.
  - by eapply write_acts_foreground.
Qed.

Lemma source_object_never_modified_witness :
  heap (fst (main nearest_resample lattice_covers (boot base_fs))) !! 1%nat
  = Some (convert_rgba sample)
  /\ take 0 (heap (fst (main nearest_resample lattice_covers (boot base_fs)))) = [].
Proof.
  assert (Hsrc : fs (boot base_fs) !! source_image_path = Some (File (Raster sample)))
    by (vm_compute; reflexivity).
  pose proof (source_object_never_modified nearest_resample lattice_covers
                (boot base_fs) _ _ sample Hsrc
                (run_pair _ _ _ (base_run_ok nearest_resample lattice_covers)))
    as (H1 & H2 & _).
  split; [exact H1|exact H2].
Defined.

(** * Writes before the removal *)

(** C10.  An exception of a run that is about the XML drawable comes from
    its removal, the last file-system call of the script: all eleven
    images are then in place, each at its path. *)
Theorem writes_precede_removal resample covers w w' e :
  main resample covers w = (w', inl e) ->
  exn_filename e = Some xml_path ->
  exists src,
    fs w !! source_image_path = Some (File (Raster src))
    /\ (forall density size, (density, size) ∈ sizes ->
          fs w' !! launcher_path density
          = Some (File (Raster (resample (convert_rgba src) (size, size))))
          /\ fs w' !! round_path density
             = Some (File (Raster (round_of covers
                                     (resample (convert_rgba src) (size, size))))))
    /\ fs w' !! fg_path = Some (File (Raster (resample (convert_rgba src) (432, 432)))).
Proof.
  intros Hmain He.
  destruct (main_outputs _ _ _ _ _ Hmain He) as (src & Hsrc & Hall & _).
  exists src. split; [done|]. split.
  - intros density size Hin. by eapply write_acts_bucket.
  - by eapply write_acts_foreground.
Qed.

Lemma writes_precede_removal_witness :
  exists src,
    fs (boot xml_dir_fs) !! source_image_path = Some (File (Raster src))
    /\ (forall density size, (density, size) ∈ sizes ->
          fs (fst (main nearest_resample lattice_covers (boot xml_dir_fs)))
            !! launcher_path density
          = Some (File (Raster (nearest_resample (convert_rgba src) (size, size))))
          /\ fs (fst (main nearest_resample lattice_covers (boot xml_dir_fs)))
               !! round_path density
             = Some (File (Raster (round_of lattice_covers
                                     (nearest_resample (convert_rgba src) (size, size))))))
    /\ fs (fst (main nearest_resample lattice_covers (boot xml_dir_fs))) !! fg_path
       = Some (File (Raster (nearest_resample (convert_rgba src) (432, 432)))).
Proof.
  apply (writes_precede_removal nearest_resample lattice_covers (boot xml_dir_fs) _
           (IsADirectoryError xml_path)
           (run_pair _ _ _ (xml_dir_run_fails nearest_resample lattice_covers))).
  reflexivity.
Defined.

(** * The order of the buckets *)

Section OrderFacts.

Variable resample : Image -> Z * Z -> Image.
Variable covers : Box -> Z -> Z -> bool.

Lemma generate_icons_fs table w :
  fs (fst (generate_icons resample covers table w))
  = fst (generate_fs resample covers table (fs w)).
Proof.
  destruct (generate_icons resample covers table w) as [w' r] eqn:Hrun.
  apply generate_icons_run in Hrun as (Hfs & _). by rewrite Hfs.
Qed.

Lemma generate_icons_result table w :
  snd (generate_icons resample covers table w)
  = snd (generate_fs resample covers table (fs w)).
Proof.
  destruct (generate_icons resample covers table w) as [w' r] eqn:Hrun.
  apply generate_icons_run in Hrun as (Hfs & _). by rewrite Hfs.
Qed.

(** The actions of two different buckets are independent. *)
Lemma buckets_independent img x y :
  x ∈ sizes -> y ∈ sizes -> x <> y ->
  Forall (fun a => Forall (fun b => indepb a b = true)
                          (bucket_acts resample covers img y))
         (bucket_acts resample covers img x).
Proof.
  assert (Hall :
    forallb (fun x => forallb (fun y =>
      bool_decide (x = y)
      || forallb (fun a => forallb (indepb a) (bucket_acts resample covers img y))
                 (bucket_acts resample covers img x)) sizes) sizes = true)
    by (vm_compute; reflexivity).
  intros Hx%list_elem_of_In Hy%list_elem_of_In Hne.
  rewrite forallb_forall in Hall. specialize (Hall _ Hx).
  rewrite forallb_forall in Hall. specialize (Hall _ Hy).
  apply orb_true_iff in Hall as [Heq%bool_decide_eq_true|Hall]; [done|].
  rewrite forallb_forall in Hall. apply List.Forall_forall. intros a Ha.
  specialize (Hall _ Ha). rewrite forallb_forall in Hall.
  by apply List.Forall_forall.
Qed.

Lemma sizes_NoDup : NoDup sizes.
Proof. apply (bool_decide_unpack _). by vm_compute. Qed.

(** In any order of the buckets, the same runs end without exception,
    in the same file system. *)
Lemma script_perm img table s :
  table ≡ₚ sizes ->
  ok_run (script resample covers table img) s
  = ok_run (script resample covers sizes img) s.
Proof.
  intros Hperm. unfold script, write_acts.
  rewrite <- !(app_assoc (concat _)), !(ok_run_app (concat _)).
  by rewrite (commute_perm (bucket_acts resample covers img) sizes table)
    by (done || apply buckets_independent || apply sizes_NoDup).
Qed.

(** The run on the blocked file system, in the two orders. *)
Lemma blocked_run_sizes :
  fst (generate_fs resample covers sizes blocked_fs) !! launcher_path "mdpi"
  = Some (File (Raster (resample (convert_rgba sample) (48, 48)))).
Proof. vm_compute. reflexivity. Qed.

Lemma blocked_run_swapped :
  fst (generate_fs resample covers swapped_sizes blocked_fs) !! launcher_path "mdpi"
  = None.
Proof. vm_compute. reflexivity. Qed.

Lemma base_run_swapped_ok :
  snd (generate_icons resample covers swapped_sizes (boot base_fs)) = inr tt.
Proof. rewrite generate_icons_result. vm_compute. reflexivity. Qed.

End OrderFacts.

(** C8, as stated, fails: when a regular file stands where the hdpi
    directory should go, the run in dictionary order leaves the mdpi icons
    behind before it aborts, and the run with the first two buckets
    exchanged leaves none. *)
Lemma bucket_order_observable_on_failure :
  swapped_sizes ≡ₚ sizes
  /\ fs (fst (generate_icons nearest_resample lattice_covers sizes (boot blocked_fs)))
     <> fs (fst (generate_icons nearest_resample lattice_covers swapped_sizes
                   (boot blocked_fs))).
Proof.
  split; [apply perm_swap|].
  intros Heq. apply (f_equal (fun m : FS => m !! launcher_path "mdpi")) in Heq.
  rewrite !generate_icons_fs in Heq. cbn [boot fs] in Heq.
  by rewrite blocked_run_sizes, blocked_run_swapped in Heq.
Qed.

(** C8 (amended).  When the run in dictionary order ends without
    exception, the run in any other order of the five buckets ends
    without exception too, and the two leave the same file system. *)
Theorem bucket_order_irrelevant_on_success resample covers table w :
  table ≡ₚ sizes ->
  snd (main resample covers w) = inr tt ->
  snd (generate_icons resample covers table w) = inr tt
  /\ fs (fst (generate_icons resample covers table w))
     = fs (fst (main resample covers w)).
Proof.
  intros Hperm. unfold main.
  rewrite !generate_icons_result, !generate_icons_fs.
  destruct (generate_fs resample covers sizes (fs w)) as [s1 r1] eqn:Hrun.
  cbn [fst snd]. intros ->.
  destruct (generate_fs_inv _ _ _ _ _ _ Hrun)
    as [(src & Hsrc & Hacts)|(_ & _ & e & [=] & _)].
  rewrite (generate_fs_source _ _ _ _ _ Hsrc).
  apply ok_run_Some in Hacts. rewrite <- (script_perm _ _ _ table) in Hacts by done.
  apply ok_run_Some in Hacts. by rewrite Hacts.
Qed.

Lemma bucket_order_irrelevant_on_success_witness :
  swapped_sizes ≡ₚ sizes
  /\ snd (main nearest_resample lattice_covers (boot base_fs)) = inr tt
  /\ snd (generate_icons nearest_resample lattice_covers swapped_sizes (boot base_fs))
     = inr tt
  /\ fs (fst (generate_icons nearest_resample lattice_covers swapped_sizes (boot base_fs)))
     = fs (fst (main nearest_resample lattice_covers (boot base_fs))).
Proof.
  assert (Hperm : swapped_sizes ≡ₚ sizes) by apply perm_swap.
  split; [exact Hperm|]. split; [apply base_run_ok|].
  exact (bucket_order_irrelevant_on_success nearest_resample lattice_covers
           swapped_sizes (boot base_fs) Hperm
           (base_run_ok nearest_resample lattice_covers)).
Defined.

(** * What a run leaves alone *)

Lemma run_acts_dir_preserved (acts : list Act) (s s' : FS) r (q : path) :
  run_acts acts s = (s', r) -> s !! q = Some Dir -> s' !! q = Some Dir.
Proof.
  revert s. induction acts as [|a acts IH]; intros s; simpl.
  - by intros [= <- _].
  - destruct (act a s) as [s1 [e|[]]] eqn:Hact.
    + intros [= <- _]. by eapply act_dir_preserved.
    + intros Hrun Hq. eapply IH; [done|]. by eapply act_dir_preserved.
Qed.

Lemma compatb_outside_footprint (a : Act) (q : path) :
  q ∉ footprint a -> compatb (ARemoveIfExists q) a = true.
Proof.
  destruct a as [p|im p|p]; simpl; [|by intros Hq; apply bool_decide_eq_true;
    intros ->; apply Hq, list_elem_of_here|done].
  intros Hq. by apply bool_decide_eq_true.
Qed.

Section Footprints.

Variable resample : Image -> Z * Z -> Image.
Variable covers : Box -> Z -> Z -> bool.

(** The files the script writes or removes are the eleven images and the
    XML drawable. *)
Lemma script_targets img :
  forallb (fun a => match target a with
                    | Some p => bool_decide (p ∈ output_paths ++ [xml_path])
                    | None => true
                    end)
          (script resample covers sizes img) = true.
Proof. vm_compute. reflexivity. Qed.

(** The paths its calls are about are these and the directories on the
    way to the six output directories. *)
Lemma script_footprints img :
  forallb (fun a => forallb (fun p => bool_decide
                       (p ∈ output_dir_prefixes ++ output_paths ++ [xml_path]))
                            (footprint a))
          (script resample covers sizes img) = true.
Proof. vm_compute. reflexivity. Qed.

Lemma script_target_elem img a p :
  a ∈ script resample covers sizes img -> target a = Some p ->
  p ∈ output_paths \/ p = xml_path.
Proof.
  intros Ha%list_elem_of_In Hp. pose proof (script_targets img) as Hall.
  rewrite forallb_forall in Hall. specialize (Hall _ Ha). rewrite Hp in Hall.
  apply bool_decide_eq_true, elem_of_app in Hall as [?|Hx]; [by left|right].
  by apply list_elem_of_singleton in Hx.
Qed.

Lemma script_footprint_elem img a p :
  a ∈ script resample covers sizes img -> p ∈ footprint a ->
  p ∈ output_dir_prefixes \/ p ∈ output_paths \/ p = xml_path.
Proof.
  intros Ha%list_elem_of_In Hp%list_elem_of_In.
  pose proof (script_footprints img) as Hall.
  rewrite forallb_forall in Hall. specialize (Hall _ Ha).
  rewrite forallb_forall in Hall. specialize (Hall _ Hp).
  apply bool_decide_eq_true in Hall.
  apply elem_of_app in Hall as [?|Hall]; [by left|right].
  apply elem_of_app in Hall as [?|Hx]; [by left|right].
  by apply list_elem_of_singleton in Hx.
Qed.

End Footprints.

(** X1.  Whether it completes or aborts, a run leaves every regular file
    other than its eleven images and the XML drawable exactly as it was:
    same path, same content. *)
Theorem run_keeps_other_files resample covers w w' r (q : path) c :
  main resample covers w = (w', r) ->
  q ∉ output_paths -> q <> xml_path ->
  fs w !! q = Some (File c) ->
  fs w' !! q = Some (File c).
Proof.
  intros (Hfs & _ & _)%generate_icons_run Hout Hxml Hq.
  apply generate_fs_inv in Hfs as [(src & _ & Hrun)|(-> & _)]; [|done].
  eapply run_acts_file_preserved; [|exact Hrun|exact Hq].
  apply Forall_forall. intros a Ha Ht.
  destruct (script_target_elem _ _ _ _ _ Ha Ht) as [?|?]; done.
Qed.

Lemma run_keeps_other_files_witness :
  fs (fst (main nearest_resample lattice_covers (boot stale_fs))) !! source_image_path
  = Some (File (Raster sample)).
Proof.
  apply (run_keeps_other_files nearest_resample lattice_covers (boot stale_fs) _ _
           source_image_path (Raster sample) (surjective_pairing _)).
  - apply (bool_decide_unpack _). by vm_compute.
  - by vm_compute.
  - by vm_compute.
Defined.

(** X2.  A run never changes what is at the source path, whether the
    source is an image, something else or missing, and whether the run
    completes or aborts. *)
Theorem run_keeps_source resample covers w :
  fs (fst (main resample covers w)) !! source_image_path
  = fs w !! source_image_path.
Proof.
  rewrite main_fs.
  destruct (generate_fs resample covers sizes (fs w)) as [s' r] eqn:Hfs.
  cbn [fst].
  apply generate_fs_inv in Hfs as [(src & Hsrc & Hrun)|(-> & _)]; [|done].
  rewrite Hsrc. eapply run_acts_file_preserved; [|exact Hrun|exact Hsrc].
  apply Forall_forall. intros a Ha Ht.
  destruct (script_target_elem _ _ _ _ _ Ha Ht) as [Hin|Heq].
  - revert Hin. apply (bool_decide_unpack _). by vm_compute.
  - revert Heq. by vm_compute.
Qed.

(** X3.  A run creates nothing besides its eleven images and the
    directories on the way to its six output directories: a path that is
    none of these and was absent before the run is absent after it. *)
Theorem run_creates_nothing_else resample covers w w' r (q : path) :
  main resample covers w = (w', r) ->
  q ∉ output_paths -> q ∉ output_dir_prefixes ->
  fs w !! q = None ->
  fs w' !! q = None.
Proof.
  intros (Hfs & _ & _)%generate_icons_run Hout Hdir Hq.
  apply generate_fs_inv in Hfs as [(src & _ & Hrun)|(-> & _)]; [|done].
  eapply run_acts_none_preserved; [|exact Hrun|exact Hq].
  apply forallb_forall. intros a Ha%list_elem_of_In.
  assert (Hrm : (forall p, a <> ARemoveIfExists p) ->
            compatb (ARemoveIfExists q) a = true).
  { intros Hne. apply compatb_outside_footprint. intros Hf.
    destruct (script_footprint_elem _ _ _ _ _ Ha Hf) as [?|[?|Heq]]; [done|done|].
    subst q.
    unfold script in Ha.
    apply elem_of_app in Ha as [Ha|Ha%list_elem_of_singleton];
      [|by destruct (Hne xml_path)].
    pose proof (write_acts_not_xml resample covers (convert_rgba src)) as Hall.
    rewrite forallb_forall in Hall. apply list_elem_of_In in Ha.
    specialize (Hall _ Ha). by apply bool_decide_eq_true in Hall. }
  destruct a as [p|im p|p]; [by apply Hrm|by apply Hrm|done].
Qed.

Lemma run_creates_nothing_else_witness :
  fs (fst (main nearest_resample lattice_covers (boot base_fs)))
    !! (res_dir ++ ["values"; "strings.xml"]%string) = None.
Proof.
  apply (run_creates_nothing_else nearest_resample lattice_covers (boot base_fs) _ _
           (res_dir ++ ["values"; "strings.xml"]%string) (surjective_pairing _)).
  - apply (bool_decide_unpack _). by vm_compute.
  - apply (bool_decide_unpack _). by vm_compute.
  - by vm_compute.
Defined.

(** X4.  A run never removes a directory and never puts a file in its
    place: what was a directory before the run is one after it, also when
    the run aborts. *)
Theorem run_keeps_directories resample covers w w' r (q : path) :
  main resample covers w = (w', r) ->
  fs w !! q = Some Dir ->
  fs w' !! q = Some Dir.
Proof.
  intros (Hfs & _ & _)%generate_icons_run Hq.
  apply generate_fs_inv in Hfs as [(src & _ & Hrun)|(-> & _)]; [|done].
  by eapply run_acts_dir_preserved.
Qed.

Lemma run_keeps_directories_witness :
  fs (fst (main nearest_resample lattice_covers (boot xml_dir_fs))) !! xml_path
  = Some Dir.
Proof.
  apply (run_keeps_directories nearest_resample lattice_covers (boot xml_dir_fs) _ _
           xml_path (surjective_pairing _)).
  by vm_compute.
Defined.

(** * What a run leaves behind *)

(** X5.  After a run that raised nothing, each of the six output
    directories exists, and so does every directory on the way to it. *)
Theorem run_creates_directories resample covers w w' (d q : path) :
  main resample covers w = (w', inr tt) ->
  d ∈ output_dirs -> q ∈ prefixes d ->
  fs w' !! q = Some Dir.
Proof.
  intros Hmain Hd Hq.
  destruct (main_outputs _ _ _ _ _ Hmain I) as (src & _ & Hall & _).
  assert (Hholds : holds (AMakedirs d) (fs w')).
  { unfold write_acts in Hall. apply Forall_app in Hall as [Hbuckets Hfg].
    unfold output_dirs in Hd. apply elem_of_app in Hd as [Hd|Hd].
    - apply list_elem_of_fmap in Hd as (bucket & -> & Hin).
      rewrite Forall_concat, Forall_fmap, Forall_forall in Hbuckets.
      specialize (Hbuckets _ Hin). simpl in Hbuckets.
      by apply Forall_cons in Hbuckets as [? _].
    - apply list_elem_of_singleton in Hd as ->.
      by apply Forall_cons in Hfg as [? _]. }
  simpl in Hholds. rewrite Forall_forall in Hholds. by apply Hholds.
Qed.

Lemma run_creates_directories_witness :
  fs (fst (main nearest_resample lattice_covers (boot base_fs))) !! mipmap_dir "xhdpi"
  = Some Dir.
Proof.
  apply (run_creates_directories nearest_resample lattice_covers (boot base_fs) _
           (mipmap_dir "xhdpi") (mipmap_dir "xhdpi")
           (run_pair _ _ _ (base_run_ok nearest_resample lattice_covers))).
  - apply (bool_decide_unpack _). by vm_compute.
  - apply (bool_decide_unpack _). by vm_compute.
Defined.

(** X6.  The completion message is printed once, as the last line, by a
    run that raised nothing; a run that aborts prints nothing. *)
Theorem completion_message resample covers w w' r :
  main resample covers w = (w', r) ->
  (r = inr tt -> stdout w' = stdout w ++ ["Icons generated successfully!"%string])
  /\ (forall e, r = inl e -> stdout w' = stdout w).
Proof.
  intros (_ & _ & Hout)%generate_icons_run. split.
  - by intros ->.
  - intros e ->. by rewrite app_nil_r in Hout.
Qed.

Lemma completion_message_witness :
  stdout (fst (main nearest_resample lattice_covers (boot base_fs)))
  = ["Icons generated successfully!"%string]
  /\ stdout (fst (main nearest_resample lattice_covers (boot xml_dir_fs))) = [].
Proof.
  split.
  - exact (proj1 (completion_message nearest_resample lattice_covers (boot base_fs) _ _
                    (run_pair _ _ _ (base_run_ok nearest_resample lattice_covers)))
                 eq_refl).
  - exact (proj2 (completion_message nearest_resample lattice_covers (boot xml_dir_fs) _ _
                    (run_pair _ _ _ (xml_dir_run_fails nearest_resample lattice_covers)))
                 _ eq_refl).
Defined.



(** * More on the round crop *)

Lemma Forall_zip_with_l {A B C} (P : A -> Prop) (Q : C -> Prop) (f : A -> B -> C)
    (l : list A) (k : list B) :
  (forall x y, P x -> Q (f x y)) -> Forall P l -> Forall Q (zip_with f l k).
Proof.
  intros Hf Hl. revert k. induction Hl as [|x l Hx _ IH]; intros [|y k]; simpl;
    constructor; auto.
Qed.

Lemma color_bands_with_alpha m : color_bands (with_alpha m) = color_bands m.
Proof. by destruct m. Qed.

Lemma bands_with_alpha m : bands (with_alpha m) = S (color_bands m).
Proof. by destruct m. Qed.

Lemma color_bands_le_bands m : (color_bands m <= bands m)%nat.
Proof. destruct m; simpl; lia. Qed.

Section RoundCropFacts.

Variable covers : Box -> Z -> Z -> bool.

Lemma round_mask_length sz :
  length (im_data (round_mask covers sz)) = Z.to_nat (fst sz * snd sz).
Proof.
  unfold round_mask, draw_ellipse, new_image. simpl.
  by rewrite length_imapZ, length_replicate.
Qed.

Lemma round_of_well_formed im : well_formed im -> well_formed (round_of covers im).
Proof.
  unfold well_formed, width, height. rewrite round_of_size. intros Hwf.
  unfold round_of, with_alpha_of. cbn [im_data].
  rewrite length_zip_with, round_mask_length, Hwf. lia.
Qed.

Lemma round_of_bands im :
  Forall (fun p => length p = bands (im_mode im)) (im_data im) ->
  Forall (fun p => length p = bands (im_mode (round_of covers im)))
         (im_data (round_of covers im)).
Proof.
  intros Hb. rewrite round_of_mode, bands_with_alpha.
  unfold round_of, with_alpha_of. cbn [im_data].
  eapply Forall_zip_with_l; [|exact Hb]. cbv beta. intros p q Hp.
  unfold put_alpha_pixel. rewrite length_app, length_take. simpl.
  pose proof (color_bands_le_bands (im_mode im)). lia.
Qed.

Lemma put_alpha_pixel_twice m (p q : Pixel) :
  (color_bands m <= length p)%nat ->
  put_alpha_pixel (with_alpha m) (put_alpha_pixel m p q) q = put_alpha_pixel m p q.
Proof.
  intros Hp. unfold put_alpha_pixel. rewrite color_bands_with_alpha.
  rewrite take_app_le by (rewrite length_take; lia).
  by rewrite take_take, Nat.min_id.
Qed.

Lemma zip_with_put_alpha_twice m (l k : list Pixel) :
  Forall (fun p => (color_bands m <= length p)%nat) l ->
  zip_with (put_alpha_pixel (with_alpha m)) (zip_with (put_alpha_pixel m) l k) k
  = zip_with (put_alpha_pixel m) l k.
Proof.
  intros Hl. revert k. induction Hl as [|p l Hp _ IH]; intros [|q k]; simpl; try done.
  by rewrite put_alpha_pixel_twice, IH.
Qed.

Lemma round_of_eq im :
  round_of covers im
  = mkImage (with_alpha (im_mode im)) (im_size im)
      (zip_with (put_alpha_pixel (im_mode im)) (im_data im)
                (im_data (round_mask covers (im_size im)))).
Proof. reflexivity. Qed.

(** Cropping a round crop again gives the round crop. *)
Lemma round_of_idem im :
  Forall (fun p => (color_bands (im_mode im) <= length p)%nat) (im_data im) ->
  round_of covers (round_of covers im) = round_of covers im.
Proof.
  intros Hb. rewrite (round_of_eq (round_of covers im)).
  rewrite round_of_size, round_of_mode. rewrite (round_of_eq im).
  cbn [im_data]. f_equal.
  - by destruct (im_mode im).
  - by apply zip_with_put_alpha_twice.
Qed.

Lemma round_of_pixel_inv im x y p' :
  pixel_at (round_of covers im) x y = Some p' ->
  exists p, pixel_at im x y = Some p.
Proof.
  unfold pixel_at, width, height. rewrite round_of_size.
  case_bool_decide; [|done].
  unfold round_of, with_alpha_of. cbn [im_data].
  intros (p & q & _ & Hp & _)%lookup_zip_with_Some. by exists p.
Qed.

End RoundCropFacts.



(** X9.  [create_round_crop] keeps images well formed: when its argument
    holds one pixel per position and each pixel has the bands of its mode,
    so does the image it returns. *)
Theorem create_round_crop_well_formed covers w img im :
  heap w !! img = Some im ->
  well_formed im ->
  Forall (fun p => length p = bands (im_mode im)) (im_data im) ->
  exists w' result round,
    create_round_crop covers img w = (w', inr result)
    /\ heap w' !! result = Some round
    /\ well_formed round
    /\ Forall (fun p => length p = bands (im_mode round)) (im_data round).
Proof.
  intros Him Hwf Hb. destruct w as [s h o]. cbn [heap] in Him.
  eexists _, _, (round_of covers im).
  split; [by apply create_round_crop_spec|]. cbn [heap].
  split.
  { rewrite lookup_app_r by lia. by rewrite Nat.sub_succ_l, Nat.sub_diag by lia. }
  split; [by apply round_of_well_formed|by apply round_of_bands].
Qed.

Lemma create_round_crop_well_formed_witness :
  exists w' result round,
    create_round_crop lattice_covers 0%nat (mkWorld ∅ [sample] []) = (w', inr result)
    /\ heap w' !! result = Some round
    /\ well_formed round
    /\ Forall (fun p => length p = bands (im_mode round)) (im_data round).
Proof.
  apply (create_round_crop_well_formed lattice_covers (mkWorld ∅ [sample] [])
           0%nat sample).
  - reflexivity.
  - reflexivity.
  - repeat constructor.
Defined.

(** X10.  Cropping twice is cropping once: [create_round_crop] called on
    the image it returned returns a further, distinct image with the same
    mode, size and pixels, when every pixel of the original has its
    colour bands. *)
Theorem create_round_crop_idempotent covers w img im :
  heap w !! img = Some im ->
  Forall (fun p => (color_bands (im_mode im) <= length p)%nat) (im_data im) ->
  exists w1 first w2 second round,
    create_round_crop covers img w = (w1, inr first)
    /\ create_round_crop covers first w1 = (w2, inr second)
    /\ first <> second
    /\ heap w2 !! first = Some round
    /\ heap w2 !! second = Some round.
Proof.
  intros Him Hb. destruct w as [s h o]. cbn [heap] in Him.
  set (h1 := h ++ [round_mask covers (im_size im); round_of covers im]).
  assert (Hfirst : h1 !! S (length h) = Some (round_of covers im)).
  { unfold h1. rewrite lookup_app_r by lia.
    by rewrite Nat.sub_succ_l, Nat.sub_diag by lia. }
  eexists _, _, _, _, (round_of covers im).
  split; [by apply create_round_crop_spec|].
  split; [by apply create_round_crop_spec|]. cbn [heap]. fold h1.
  assert (Hlen : length h1 = (length h + 2)%nat)
    by (unfold h1; rewrite length_app; simpl; lia).
  split; [lia|]. split.
  - by apply lookup_app_l_Some.
  - rewrite lookup_app_r by lia.
    rewrite Nat.sub_succ_l, Nat.sub_diag by lia. simpl.
    by rewrite round_of_idem.
Qed.

Lemma create_round_crop_idempotent_witness :
  exists w1 first w2 second round,
    create_round_crop lattice_covers 0%nat (mkWorld ∅ [sample] []) = (w1, inr first)
    /\ create_round_crop lattice_covers first w1 = (w2, inr second)
    /\ first <> second
    /\ heap w2 !! first = Some round
    /\ heap w2 !! second = Some round.
Proof.
  apply (create_round_crop_idempotent lattice_covers (mkWorld ∅ [sample] [])
           0%nat sample).
  - reflexivity.
  - repeat constructor; simpl; lia.
Defined.

(** X11.  The round icons are not anti-aliased: in each round icon a run
    leaves, the alpha of every pixel is 0 or 255, whatever the source
    image and whatever the resize and ellipse primitives do. *)
Theorem round_icon_alpha_binary resample covers w w' density size :
  main resample covers w = (w', inr tt) ->
  (density, size) ∈ sizes ->
  exists round,
    fs w' !! round_path density = Some (File (Raster round))
    /\ forall x y a, alpha_at round x y = Some a -> a = 0 \/ a = 255.
Proof.
  intros Hmain Hin.
  destruct (main_bucket _ _ _ _ _ _ Hmain Hin) as (src & _ & _ & Hround).
  eexists. split; [exact Hround|].
  intros x y a Ha.
  destruct (pixel_at (round_of covers (resample (convert_rgba src) (size, size))) x y)
    as [p'|] eqn:Hp'; [|by unfold alpha_at in Ha; rewrite Hp' in Ha].
  apply round_of_pixel_inv in Hp' as [p Hp].
  rewrite (round_of_alpha _ _ _ _ _ Hp) in Ha. injection Ha as <-.
  destruct (covers _ _ _); auto.
Qed.

Lemma round_icon_alpha_binary_witness :
  exists round,
    fs (fst (main nearest_resample lattice_covers (boot base_fs))) !! round_path "mdpi"
    = Some (File (Raster round))
    /\ forall x y a, alpha_at round x y = Some a -> a = 0 \/ a = 255.
Proof.
  assert (Hin : (("mdpi"%string, 48) : string * Z) ∈ sizes)
    by (unfold sizes; set_solver).
  exact (round_icon_alpha_binary nearest_resample lattice_covers (boot base_fs) _
           "mdpi"%string 48
           (run_pair _ _ _ (base_run_ok nearest_resample lattice_covers)) Hin).
Defined.

(** * When a run goes through *)





Section SuccessFacts.

Variable resample : Image -> Z * Z -> Image.
Variable covers : Box -> Z -> Z -> bool.



End SuccessFacts.


(** * Aborted runs *)

Section AbortFacts.

Variable resample : Image -> Z * Z -> Image.
Variable covers : Box -> Z -> Z -> bool.

(** The calls before those of the bucket of rank [k] are not about the
    paths of that bucket. *)
Lemma earlier_calls_elsewhere img (k i : nat) density size (p : path) a :
  sizes !! k = Some (density, size) ->
  p ∈ [mipmap_dir density; launcher_path density; round_path density] ->
  (i < 3 * k)%nat ->
  script resample covers sizes img !! i = Some a ->
  p ∉ footprint a.
Proof.
  intros Hk Hp Hi Ha.
  assert (Hleaf : forall q : path, q ∈ footprint a ->
            bool_decide (q ∈ footprint a) = true) by (intros; by apply bool_decide_eq_true).
  intros Hf. apply Hleaf in Hf. clear Hleaf. revert Hf.
  do 5 (destruct k as [|k];
        [injection Hk as <- <-;
         do 12 (destruct i as [|i]; [try lia; injection Ha as <-;
           apply list_elem_of_In in Hp; destruct Hp as [<-|[<-|[<-|[]]]];
           by vm_compute|]); lia|]).
  done.
Qed.

(** The image writes of the bucket of rank [j]. *)
Lemma script_bucket_calls img (j : nat) d n :
  sizes !! j = Some (d, n) ->
  script resample covers sizes img !! (3 * j + 1)%nat
  = Some (ASave (resample img (n, n)) (launcher_path d))
  /\ script resample covers sizes img !! (3 * j + 2)%nat
     = Some (ASave (round_of covers (resample img (n, n))) (round_path d)).
Proof.
  intros Hj. do 5 (destruct j as [|j]; [by injection Hj as <- <-|]). done.
Qed.

End AbortFacts.

(** X13.  Nothing is rolled back: when a run aborts with an exception
    about the directory or one of the two images of a bucket, both images
    of every bucket that comes earlier in [sizes] are in place. *)
Theorem abort_keeps_earlier_buckets resample covers w w' e (k : nat) density size
    (p : path) :
  main resample covers w = (w', inl e) ->
  exn_filename e = Some p ->
  sizes !! k = Some (density, size) ->
  p ∈ [mipmap_dir density; launcher_path density; round_path density] ->
  exists src,
    fs w !! source_image_path = Some (File (Raster src))
    /\ forall (j : nat) d n, (j < k)%nat -> sizes !! j = Some (d, n) ->
         fs w' !! launcher_path d
         = Some (File (Raster (resample (convert_rgba src) (n, n))))
         /\ fs w' !! round_path d
            = Some (File (Raster (round_of covers (resample (convert_rgba src) (n, n))))).
Proof.
  intros (Hfs & _ & _)%generate_icons_run He Hk Hp.
  apply generate_fs_inv in Hfs as [(src & Hsrc & Hrun)|(_ & _ & e' & [= <-] & He')].
  2:{ exfalso. rewrite He in He'. injection He' as ->. revert Hp.
      do 5 (destruct k as [|k]; [injection Hk as <- <-;
              apply (bool_decide_unpack _); by vm_compute|]).
      done. }
  exists src. split; [done|]. intros j d n Hj Hjs.
  destruct (run_acts_inv _ [] _ _ _ (Forall_nil_2 _)
              (script_ordered resample covers (convert_rgba src))
              (Forall_nil_2 _) Hrun) as (m & Hholds & a & Hma & Hact).
  cbn [app] in Hholds.
  apply act_err_footprint in Hact as (q & Hq & Hf).
  assert (q = p) as -> by congruence.
  assert (Hm : (3 * k <= m)%nat).
  { destruct (decide (3 * k <= m)%nat) as [|Hlt]; [done|]. exfalso.
    assert (Hlt' : (m < 3 * k)%nat) by lia.
    exact (earlier_calls_elsewhere resample covers (convert_rgba src) k m density size
             p a Hk Hp Hlt' Hma Hf). }
  destruct (script_bucket_calls resample covers (convert_rgba src) j d n Hjs)
    as [H1 H2].
  rewrite Forall_lookup in Hholds.
  split.
  - eapply (Hholds (3 * j + 1)%nat (ASave _ _)).
    rewrite lookup_take_lt by lia. exact H1.
  - eapply (Hholds (3 * j + 2)%nat (ASave _ _)).
    rewrite lookup_take_lt by lia. exact H2.
Qed.

Lemma blocked_run_fails resample covers :
  snd (main resample covers (boot blocked_fs))
  = inl (FileExistsError (mipmap_dir "hdpi")).
Proof. rewrite main_result. vm_compute. reflexivity. Qed.

Lemma abort_keeps_earlier_buckets_witness :
  exists src,
    fs (boot blocked_fs) !! source_image_path = Some (File (Raster src))
    /\ forall (j : nat) d n, (j < 1)%nat -> sizes !! j = Some (d, n) ->
         fs (fst (main nearest_resample lattice_covers (boot blocked_fs)))
           !! launcher_path d
         = Some (File (Raster (nearest_resample (convert_rgba src) (n, n))))
         /\ fs (fst (main nearest_resample lattice_covers (boot blocked_fs)))
              !! round_path d
            = Some (File (Raster (round_of lattice_covers
                                    (nearest_resample (convert_rgba src) (n, n))))).
Proof.
  assert (Hp : mipmap_dir "hdpi"
               ∈ [mipmap_dir "hdpi"; launcher_path "hdpi"; round_path "hdpi"])
    by apply list_elem_of_here.
  exact (abort_keeps_earlier_buckets nearest_resample lattice_covers (boot blocked_fs) _
           (FileExistsError (mipmap_dir "hdpi")) 1%nat "hdpi"%string 72
           (mipmap_dir "hdpi")
           (run_pair _ _ _ (blocked_run_fails nearest_resample lattice_covers))
           eq_refl eq_refl Hp).
Defined.

(** * The round icon next to the launcher icon *)

Lemma convert_rgba_full im : full_pixels im -> full_pixels (convert_rgba im).
Proof.
  unfold full_pixels, convert_rgba. cbn [im_mode im_data]. intros Hfull.
  apply Forall_fmap. eapply Forall_impl; [exact Hfull|]. cbv beta.
  intros p Hp. unfold compose. destruct (im_mode im); cbn [to_rgba bands] in *.
  - reflexivity.
  - reflexivity.
  - rewrite length_app, length_take, Hp. reflexivity.
  - exact Hp.
Qed.

Lemma nearest_resample_full im sz :
  full_pixels im -> full_pixels (nearest_resample im sz).
Proof.
  destruct sz as [w h]. unfold full_pixels, nearest_resample.
  cbn [im_mode im_data]. intros Hfull.
  apply Forall_lookup. intros i p. rewrite lookup_imapZ.
  destruct (replicate _ _ !! i) as [[]|]; [|done]. cbn [fmap option_fmap option_map].
  intros [= <-].
  destruct (im_data im !! _) as [q|] eqn:Hq; cbn [default].
  - rewrite Forall_lookup in Hfull. by eapply Hfull.
  - apply length_replicate.
Qed.

(** X14.  The round icon of a bucket differs from its launcher icon in
    the alpha band only: it is an RGBA image, and at every position its
    colour bands are those of the launcher icon.  The source image is
    taken to have complete pixels and the imaging library to return an
    image of the mode of its argument, with complete pixels when its
    argument has them. *)
Theorem round_icon_colours resample covers :
  (forall im sz, im_mode (resample im sz) = im_mode im) ->
  (forall im sz, full_pixels im -> full_pixels (resample im sz)) ->
  forall w w' src density size,
    fs w !! source_image_path = Some (File (Raster src)) ->
    full_pixels src ->
    main resample covers w = (w', inr tt) ->
    (density, size) ∈ sizes ->
    exists icon round,
      fs w' !! launcher_path density = Some (File (Raster icon))
      /\ fs w' !! round_path density = Some (File (Raster round))
      /\ im_mode round = Mode_RGBA
      /\ forall x y, color_at round x y = color_at icon x y.
Proof.
  intros Hmode Hfull w w' src density size Hsrc Hsrcfull Hmain Hin.
  destruct (main_bucket _ _ _ _ _ _ Hmain Hin) as (src' & Hsrc' & Hicon & Hround).
  assert (src' = src) as -> by congruence.
  set (icon := resample (convert_rgba src) (size, size)) in *.
  exists icon, (round_of covers icon).
  split; [done|]. split; [done|].
  assert (Hm : im_mode icon = Mode_RGBA) by apply Hmode.
  split; [by rewrite round_of_mode, Hm|].
  intros x y. destruct (pixel_at icon x y) as [p|] eqn:Hp.
  - apply (round_of_color _ _ _ _ _ Hp).
    assert (Hlen : length p = bands (im_mode icon)).
    { unfold pixel_at in Hp. case_bool_decide; [|done].
      pose proof (Hfull _ (size, size) (convert_rgba_full _ Hsrcfull)) as Hall.
      unfold full_pixels in Hall. rewrite Forall_lookup in Hall. by eapply Hall. }
    rewrite Hlen. apply color_bands_le_bands.
  - unfold color_at. rewrite Hp.
    destruct (pixel_at (round_of covers icon) x y) as [p'|] eqn:Hp'; [|done].
    apply round_of_pixel_inv in Hp' as [p Hp'']. congruence.
Qed.

Lemma round_icon_colours_witness :
  exists icon round,
    fs (fst (main nearest_resample lattice_covers (boot base_fs))) !! launcher_path "xxhdpi"
    = Some (File (Raster icon))
    /\ fs (fst (main nearest_resample lattice_covers (boot base_fs))) !! round_path "xxhdpi"
       = Some (File (Raster round))
    /\ im_mode round = Mode_RGBA
    /\ forall x y, color_at round x y = color_at icon x y.
Proof.
  assert (Hsrc : fs (boot base_fs) !! source_image_path = Some (File (Raster sample)))
    by (vm_compute; reflexivity).
  assert (Hfull : full_pixels sample) by (repeat constructor).
  assert (Hin : (("xxhdpi"%string, 144) : string * Z) ∈ sizes)
    by (unfold sizes; set_solver).
  exact (round_icon_colours nearest_resample lattice_covers
           nearest_resample_mode nearest_resample_full
           (boot base_fs) _ sample "xxhdpi"%string 144 Hsrc Hfull
           (run_pair _ _ _ (base_run_ok nearest_resample lattice_covers)) Hin).
Defined.
